(** * The chat client of [src/App.tsx]: conversation state machine,
      persistence and presentation.

    The component keeps three pieces of React state ([input], [msgs],
    [loading]), mirrors [msgs] into [localStorage] and talks to one HTTP
    endpoint.  The development below embeds

    - the strings of the program as sequences of UTF-16 code units,
      with [trim] and the regular expression of [toHref];
    - [JSON.stringify] and [JSON.parse] on the documents the program
      writes and reads;
    - the message types, the event handlers ([onSubmit], [sendPrompt],
      [regenerate], [newChat]) as functions on the application state, the
      asynchronous [sendPrompt] being split at its [await];
    - [AssistantBubble] as a function to a small element tree. *)

From Stdlib Require Import ZArith NArith List String Ascii Lia Bool.
From Stdlib Require Import DecimalFacts DecimalPos DecimalZ.
From stdpp Require Import base option list gmap.

Local Open Scope N_scope.

(* ================================================================== *)
(** * Strings *)

(** A JavaScript string is a sequence of 16-bit code units.  A code unit
    is a number in [N]; string literals of the source are written
    [js "..."]. *)

Abbreviation jsstring := (list N).

Fixpoint js (s : string) : list N :=
  match s with
  | EmptyString => []
  | String c r => N_of_ascii c :: js r
  end.

Fixpoint jsstring_eqb (a b : list N) : bool :=
  match a, b with
  | [], [] => true
  | x :: a', y :: b' => (x =? y) && jsstring_eqb a' b'
  | _, _ => false
  end.

(** Truthiness of a string value: every string but the empty one. *)
Definition truthy (s : list N) : bool :=
  match s with [] => false | _ :: _ => true end.

(** Truthiness of [string | undefined]. *)
Definition truthy_opt (o : option (list N)) : bool :=
  match o with Some s => truthy s | None => false end.

(** [a || b] on strings. *)
Definition or_else (a b : list N) : list N :=
  if truthy a then a else b.

(** [a || b] on [string | undefined]. *)
Definition or_else_opt (a b : option (list N)) : option (list N) :=
  if truthy_opt a then a else b.

(** ** [String.prototype.trim] *)

(** WhiteSpace and LineTerminator code units of ECMAScript. *)
Definition is_trim_space (c : N) : bool :=
  ((9 <=? c) && (c <=? 13)) || (c =? 32) || (c =? 160) || (c =? 5760)
  || ((8192 <=? c) && (c <=? 8202)) || (c =? 8232) || (c =? 8233)
  || (c =? 8239) || (c =? 8287) || (c =? 12288) || (c =? 65279).

Fixpoint trimStart (s : list N) : list N :=
  match s with
  | [] => []
  | c :: r => if is_trim_space c then trimStart r else s
  end.

Definition trimEnd (s : list N) : list N := rev (trimStart (rev s)).

Definition trim (s : list N) : list N := trimEnd (trimStart s).

(** ** The regular expression [/^https?:\/\//i] *)

(** Case folding of the [i] flag on the characters of the pattern: only
    the ASCII letters of either case fold together (a code unit of 128 or
    more never folds to one below 128). *)
Definition fold_case (c : N) : N :=
  if (97 <=? c) && (c <=? 122) then c - 32 else c.

(** [s] begins with [p], compared up to case. *)
Fixpoint starts_with_ci (p s : list N) : bool :=
  match p, s with
  | [], _ => true
  | _ :: _, [] => false
  | x :: p', y :: s' => (fold_case x =? fold_case y) && starts_with_ci p' s'
  end.

(** [/^https?:\/\//i.test(s)]: the optional [s] gives two readings. *)
Definition test_http_url (s : list N) : bool :=
  starts_with_ci (js "https://") s || starts_with_ci (js "http://") s.

(* ================================================================== *)
(** * JSON text *)

(** The documents [JSON.parse] accepts, as syntax trees.  A numeral is
    kept as it is written (the double it denotes is not computed); the
    members of an object are kept in the order of the text. *)
#[warnings="-register-all"]
Inductive JSON : Type :=
| JNull
| JBool (b : bool)
| JNumber (numeral : list N)
| JString (s : list N)
| JArray (items : list JSON)
| JObject (members : list (list N * JSON)).

(** ** [JSON.stringify] *)

Definition hex_digit (n : N) : N := if n <? 10 then 48 + n else 87 + n.

(** The escape [\uXXXX] of a code unit, in lower-case hexadecimal. *)
Definition unicode_escape (c : N) : list N :=
  [92; 117; hex_digit ((c / 4096) mod 16); hex_digit ((c / 256) mod 16);
   hex_digit ((c / 16) mod 16); hex_digit (c mod 16)].

Definition is_high_surrogate (c : N) : bool := (55296 <=? c) && (c <=? 56319).
Definition is_low_surrogate (c : N) : bool := (56320 <=? c) && (c <=? 57343).

(** One code unit that is not part of a surrogate pair. *)
Definition quote_unit (c : N) : list N :=
  if c =? 8 then [92; 98]
  else if c =? 9 then [92; 116]
  else if c =? 10 then [92; 110]
  else if c =? 12 then [92; 102]
  else if c =? 13 then [92; 114]
  else if c =? 34 then [92; 34]
  else if c =? 92 then [92; 92]
  else if (c <? 32) || is_high_surrogate c || is_low_surrogate c
       then unicode_escape c
  else [c].

(** The characters of a string literal: a surrogate pair is copied, a
    lone surrogate escaped. *)
Fixpoint quote_units (s : list N) : list N :=
  match s with
  | [] => []
  | c :: r =>
      if is_high_surrogate c then
        match r with
        | d :: r' =>
            if is_low_surrogate d then c :: d :: quote_units r'
            else unicode_escape c ++ quote_units r
        | [] => unicode_escape c
        end
      else quote_unit c ++ quote_units r
  end.

Definition quote (s : list N) : list N := [34] ++ quote_units s ++ [34].

Fixpoint join_comma (parts : list (list N)) : list N :=
  match parts with
  | [] => []
  | [p] => p
  | p :: rest => p ++ [44] ++ join_comma rest
  end.

(** [JSON.stringify] without indentation. *)
Fixpoint JSON_stringify (j : JSON) : list N :=
  match j with
  | JNull => js "null"
  | JBool true => js "true"
  | JBool false => js "false"
  | JNumber n => n
  | JString s => quote s
  | JArray items => [91] ++ join_comma (List.map JSON_stringify items) ++ [93]
  | JObject members =>
      [123]
      ++ join_comma
           (List.map (fun kv => quote (fst kv) ++ [58] ++ JSON_stringify (snd kv))
              members)
      ++ [125]
  end.

(** ** [JSON.parse] *)

Definition is_json_space (c : N) : bool :=
  (c =? 32) || (c =? 9) || (c =? 10) || (c =? 13).

Fixpoint skip_ws (s : list N) : list N :=
  match s with
  | [] => []
  | c :: r => if is_json_space c then skip_ws r else s
  end.

Definition hex_value (c : N) : option N :=
  if (48 <=? c) && (c <=? 57) then Some (c - 48)
  else if (97 <=? c) && (c <=? 102) then Some (c - 87)
  else if (65 <=? c) && (c <=? 70) then Some (c - 55)
  else None.

Definition hex4 (a b c d : N) : option N :=
  x ← hex_value a; y ← hex_value b; z ← hex_value c; w ← hex_value d;
  Some (((x * 16 + y) * 16 + z) * 16 + w).

(** The character after a backslash, [u] apart. *)
Definition unescape (e : N) : option N :=
  if e =? 34 then Some 34
  else if e =? 92 then Some 92
  else if e =? 47 then Some 47
  else if e =? 98 then Some 8
  else if e =? 102 then Some 12
  else if e =? 110 then Some 10
  else if e =? 114 then Some 13
  else if e =? 116 then Some 9
  else None.

(** The rest of a string literal after its opening quote: the string it
    denotes and the text that follows the closing quote. *)
Fixpoint parse_units (s : list N) : option (list N * list N) :=
  match s with
  | [] => None
  | c :: t =>
      if c =? 34 then Some ([], t)
      else if c =? 92 then
        match t with
        | [] => None
        | e :: t' =>
            if e =? 117 then
              match t' with
              | h1 :: h2 :: h3 :: h4 :: t'' =>
                  u ← hex4 h1 h2 h3 h4;
                  '(r, rest) ← parse_units t'';
                  Some (u :: r, rest)
              | _ => None
              end
            else
              u ← unescape e;
              '(r, rest) ← parse_units t';
              Some (u :: r, rest)
        end
      else if c <? 32 then None
      else '(r, rest) ← parse_units t; Some (c :: r, rest)
  end.

Definition is_digit (c : N) : bool := (48 <=? c) && (c <=? 57).

Definition is_numeral_unit (c : N) : bool :=
  is_digit c || (c =? 43) || (c =? 45) || (c =? 46) || (c =? 69) || (c =? 101).

Fixpoint span_numeral (s : list N) : list N * list N :=
  match s with
  | [] => ([], [])
  | c :: r =>
      if is_numeral_unit c
      then let '(l, rest) := span_numeral r in (c :: l, rest)
      else ([], s)
  end.

Fixpoint skip_digits (s : list N) : list N :=
  match s with
  | [] => []
  | c :: r => if is_digit c then skip_digits r else s
  end.

(** One digit or more; what follows them. *)
Definition digits1 (s : list N) : option (list N) :=
  match s with
  | c :: r => if is_digit c then Some (skip_digits r) else None
  | [] => None
  end.

Definition int_part (s : list N) : option (list N) :=
  match s with
  | c :: r =>
      if c =? 48 then Some r
      else if is_digit c then Some (skip_digits r)
      else None
  | [] => None
  end.

Definition frac_part (s : list N) : option (list N) :=
  match s with
  | c :: r => if c =? 46 then digits1 r else Some s
  | [] => Some []
  end.

Definition exp_part (s : list N) : option (list N) :=
  match s with
  | c :: r =>
      if (c =? 101) || (c =? 69) then
        match r with
        | d :: r' => if (d =? 43) || (d =? 45) then digits1 r' else digits1 r
        | [] => None
        end
      else Some s
  | [] => Some []
  end.

(** The grammar of a JSON number: an optional minus sign; then a single
    zero, or a digit from 1 to 9 and any digits; then, optionally, a dot
    and at least one digit; then, optionally, [e] or [E], an optional
    sign and at least one digit. *)
Definition valid_numeral (s : list N) : bool :=
  let unsigned := match s with
                  | c :: r => if c =? 45 then r else s
                  | [] => []
                  end in
  match (r1 ← int_part unsigned; r2 ← frac_part r1; exp_part r2) with
  | Some [] => true
  | _ => false
  end.

Fixpoint starts_with (p s : list N) : option (list N) :=
  match p, s with
  | [], _ => Some s
  | _ :: _, [] => None
  | x :: p', y :: s' => if x =? y then starts_with p' s' else None
  end.

(** Recursive descent on the text; [fuel] bounds the number of nested
    calls.  Each function returns the value read and the text after it. *)
Fixpoint parse_value (fuel : nat) (s : list N) {struct fuel}
  : option (JSON * list N) :=
  match fuel with
  | O => None
  | S n =>
      match skip_ws s with
      | [] => None
      | c :: t =>
          if c =? 34 then
            '(str, rest) ← parse_units t; Some (JString str, rest)
          else if c =? 91 then
            match skip_ws t with
            | [] => None
            | c' :: t' =>
                if c' =? 93 then Some (JArray [], t')
                else '(items, rest) ← parse_elements n (c' :: t');
                     Some (JArray items, rest)
            end
          else if c =? 123 then
            match skip_ws t with
            | [] => None
            | c' :: t' =>
                if c' =? 125 then Some (JObject [], t')
                else '(members, rest) ← parse_members n (c' :: t');
                     Some (JObject members, rest)
            end
          else
            match starts_with (js "true") (c :: t),
                  starts_with (js "false") (c :: t),
                  starts_with (js "null") (c :: t) with
            | Some rest, _, _ => Some (JBool true, rest)
            | _, Some rest, _ => Some (JBool false, rest)
            | _, _, Some rest => Some (JNull, rest)
            | None, None, None =>
                let '(numeral, rest) := span_numeral (c :: t) in
                if valid_numeral numeral then Some (JNumber numeral, rest)
                else None
            end
      end
  end
with parse_elements (fuel : nat) (s : list N) {struct fuel}
  : option (list JSON * list N) :=
  match fuel with
  | O => None
  | S n =>
      '(v, r) ← parse_value n s;
      match skip_ws r with
      | [] => None
      | c :: t =>
          if c =? 44 then
            '(vs, rest) ← parse_elements n t; Some (v :: vs, rest)
          else if c =? 93 then Some ([v], t)
          else None
      end
  end
with parse_members (fuel : nat) (s : list N) {struct fuel}
  : option (list (list N * JSON) * list N) :=
  match fuel with
  | O => None
  | S n =>
      match skip_ws s with
      | [] => None
      | q :: t =>
          if q =? 34 then
            '(k, r) ← parse_units t;
            match skip_ws r with
            | [] => None
            | c :: t' =>
                if c =? 58 then
                  '(v, r') ← parse_value n t';
                  match skip_ws r' with
                  | [] => None
                  | c' :: t'' =>
                      if c' =? 44 then
                        '(ms, rest) ← parse_members n t'';
                        Some ((k, v) :: ms, rest)
                      else if c' =? 125 then Some ([(k, v)], t'')
                      else None
                  end
                else None
            end
          else None
      end
  end.

(** [JSON.parse]: one value, white space around it, nothing else.
    [None] is the [SyntaxError] it throws.  Every nested call consumes
    text, so twice the length of the text is fuel enough. *)
Definition JSON_parse (s : list N) : option JSON :=
  match parse_value (2 * length s + 1) s with
  | Some (v, rest) => match skip_ws rest with [] => Some v | _ => None end
  | None => None
  end.

(* ================================================================== *)
(** * Data model *)

(** [type Source = { id: string; key: string }] *)
Record Source := { id : list N; key : list N }.

(** [type BackendOut = { answer?: string; sources?: Source[]; error?: string }];
    an optional field holds [None] when it is [undefined]. *)
Record BackendOut := {
  answer : option (list N);
  sources : option (list Source);
  error : option (list N)
}.

Inductive Role := user | assistant.

(** [type ChatMsg]: the two variants of the union.  [ts] is a count of
    milliseconds as [Date.now()] returns it. *)
Inductive ChatMsg :=
| UserMsg (id text : list N) (ts : Z)
| AssistantMsg (id text : list N) (ts : Z)
    (sources : option (list Source)) (error : option (list N)).

Definition role (m : ChatMsg) : Role :=
  match m with UserMsg _ _ _ => user | AssistantMsg _ _ _ _ _ => assistant end.

Definition text (m : ChatMsg) : list N :=
  match m with UserMsg _ t _ => t | AssistantMsg _ t _ _ _ => t end.

Definition is_user (m : ChatMsg) : bool :=
  match role m with user => true | assistant => false end.

Definition is_assistant (m : ChatMsg) : bool :=
  match role m with user => false | assistant => true end.

(** [const LS_KEY = "siliconlabs_chat_history_v1"] *)
Definition LS_KEY : list N := js "siliconlabs_chat_history_v1".

(** ** The messages as [JSON.stringify] sees them *)

Fixpoint units_of_uint (d : Decimal.uint) : list N :=
  match d with
  | Decimal.Nil => []
  | Decimal.D0 d => 48 :: units_of_uint d
  | Decimal.D1 d => 49 :: units_of_uint d
  | Decimal.D2 d => 50 :: units_of_uint d
  | Decimal.D3 d => 51 :: units_of_uint d
  | Decimal.D4 d => 52 :: units_of_uint d
  | Decimal.D5 d => 53 :: units_of_uint d
  | Decimal.D6 d => 54 :: units_of_uint d
  | Decimal.D7 d => 55 :: units_of_uint d
  | Decimal.D8 d => 56 :: units_of_uint d
  | Decimal.D9 d => 57 :: units_of_uint d
  end.

(** An integer in decimal, as [Number::toString] writes the integers
    that a double holds exactly and writes without exponent. *)
Definition numeral_of_Z (z : Z) : list N :=
  match Z.to_int z with
  | Decimal.Pos d => units_of_uint d
  | Decimal.Neg d => 45 :: units_of_uint d
  end.

(** A property whose value is [undefined] is left out. *)
Definition optional_member {A} (k : list N) (f : A -> JSON) (o : option A)
  : list (list N * JSON) :=
  match o with Some v => [(k, f v)] | None => [] end.

Definition Source_toJSON (s : Source) : JSON :=
  JObject [(js "id", JString (id s)); (js "key", JString (key s))].

(** The properties in the order the object literals of [sendPrompt]
    list them. *)
Definition ChatMsg_toJSON (m : ChatMsg) : JSON :=
  match m with
  | UserMsg i t ts =>
      JObject [(js "id", JString i); (js "role", JString (js "user"));
               (js "text", JString t); (js "ts", JNumber (numeral_of_Z ts))]
  | AssistantMsg i t ts srcs err =>
      JObject ([(js "id", JString i); (js "role", JString (js "assistant"));
                (js "text", JString t); (js "ts", JNumber (numeral_of_Z ts))]
               ++ optional_member (js "sources")
                    (fun l => JArray (List.map Source_toJSON l)) srcs
               ++ optional_member (js "error") JString err)
  end.

Definition ChatMsgs_toJSON (l : list ChatMsg) : JSON :=
  JArray (List.map ChatMsg_toJSON l).

(** ** A parsed document read as [ChatMsg[]] *)

(** The cast [JSON.parse(raw) as ChatMsg[]] checks nothing.  The
    functions below read a document through the property accesses the
    component makes ([m.id], [m.role], [m.text], [m.ts], [m.sources],
    [m.error], [s.id], [s.key]); they answer [None] when the document
    does not have the declared type. *)

(** [o.k] on the members of a parsed object: the last member of that
    name, [None] for [undefined]. *)
Fixpoint get_member (k : list N) (ms : list (list N * JSON)) : option JSON :=
  match ms with
  | [] => None
  | (k', v) :: r =>
      match get_member k r with
      | Some v' => Some v'
      | None => if jsstring_eqb k k' then Some v else None
      end
  end.

Definition prop (k : list N) (j : JSON) : option JSON :=
  match j with JObject ms => get_member k ms | _ => None end.

Definition digit_cons (c : N) (d : Decimal.uint) : option Decimal.uint :=
  if c =? 48 then Some (Decimal.D0 d)
  else if c =? 49 then Some (Decimal.D1 d)
  else if c =? 50 then Some (Decimal.D2 d)
  else if c =? 51 then Some (Decimal.D3 d)
  else if c =? 52 then Some (Decimal.D4 d)
  else if c =? 53 then Some (Decimal.D5 d)
  else if c =? 54 then Some (Decimal.D6 d)
  else if c =? 55 then Some (Decimal.D7 d)
  else if c =? 56 then Some (Decimal.D8 d)
  else if c =? 57 then Some (Decimal.D9 d)
  else None.

Fixpoint uint_of_units (s : list N) : option Decimal.uint :=
  match s with
  | [] => Some Decimal.Nil
  | c :: r => d ← uint_of_units r; digit_cons c d
  end.

(** The integer a numeral without fraction and exponent denotes. *)
Definition Z_of_numeral (s : list N) : option Z :=
  match s with
  | [] => None
  | c :: r =>
      if c =? 45
      then d ← uint_of_units r; Some (Z.of_int (Decimal.Neg d))
      else d ← uint_of_units s; Some (Z.of_int (Decimal.Pos d))
  end.

Definition as_string (o : option JSON) : option (list N) :=
  match o with Some (JString s) => Some s | _ => None end.

Definition as_integer (o : option JSON) : option Z :=
  match o with Some (JNumber n) => Z_of_numeral n | _ => None end.

(** A property of type [T | undefined]. *)
Definition as_optional {A} (f : JSON -> option A) (o : option JSON)
  : option (option A) :=
  match o with
  | None => Some None
  | Some j => v ← f j; Some (Some v)
  end.

Definition as_Source (j : JSON) : option Source :=
  i ← as_string (prop (js "id") j);
  k ← as_string (prop (js "key") j);
  Some {| id := i; key := k |}.

Definition as_Sources (j : JSON) : option (list Source) :=
  match j with JArray items => mapM as_Source items | _ => None end.

Definition as_ChatMsg (j : JSON) : option ChatMsg :=
  r ← as_string (prop (js "role") j);
  i ← as_string (prop (js "id") j);
  t ← as_string (prop (js "text") j);
  ts ← as_integer (prop (js "ts") j);
  if jsstring_eqb r (js "user") then Some (UserMsg i t ts)
  else if jsstring_eqb r (js "assistant") then
    srcs ← as_optional as_Sources (prop (js "sources") j);
    err ← as_optional (fun v => as_string (Some v)) (prop (js "error") j);
    Some (AssistantMsg i t ts srcs err)
  else None.

Definition as_ChatMsgs (j : JSON) : option (list ChatMsg) :=
  match j with JArray items => mapM as_ChatMsg items | _ => None end.

(* ================================================================== *)
(** * Local storage *)

(** [localStorage.getItem]: [None] is [null]. *)
Definition getItem (k : list N) (ls : gmap (list N) (list N)) : option (list N) :=
  ls !! k.

Definition setItem (k v : list N) (ls : gmap (list N) (list N))
  : gmap (list N) (list N) := <[k := v]> ls.

Definition removeItem (k : list N) (ls : gmap (list N) (list N))
  : gmap (list N) (list N) := delete k ls.

(** What the initializer of [msgs] returns: a conversation, or a
    document of another type that the cast lets through. *)
Inductive Loaded :=
| Restored (history : list ChatMsg)
| Foreign (doc : JSON).

(** The initializer of [msgs] (lines 26-33): [raw ? JSON.parse(raw) : []]
    inside [try], [[]] in [catch]. *)
Definition load (ls : gmap (list N) (list N)) : Loaded :=
  match getItem LS_KEY ls with
  | Some raw =>
      if truthy raw then
        match JSON_parse raw with
        | Some doc =>
            match as_ChatMsgs doc with
            | Some history => Restored history
            | None => Foreign doc
            end
        | None => Restored []
        end
      else Restored []
  | None => Restored []
  end.

(** The effect of lines 42-44. *)
Definition persist (history : list ChatMsg) (ls : gmap (list N) (list N))
  : gmap (list N) (list N) :=
  setItem LS_KEY (JSON_stringify (ChatMsgs_toJSON history)) ls.

(* ================================================================== *)
(** * The component *)

(** A request handed to [fetch]. *)
Record Request := {
  url : list N;
  method : list N;
  headers : list (list N * list N);
  body : list N
}.

(** The state of the component ([input], [msgs], [loading]) and the two
    things outside it that the handlers touch: the local storage and
    the requests issued so far. *)
Record App := {
  input : list N;
  msgs : list ChatMsg;
  loading : bool;
  localStorage : gmap (list N) (list N);
  requests : list Request
}.

Definition setInput (v : list N) (a : App) : App :=
  {| input := v; msgs := msgs a; loading := loading a;
     localStorage := localStorage a; requests := requests a |}.

(** [setMsgs] with an updater function. *)
Definition setMsgs (f : list ChatMsg -> list ChatMsg) (a : App) : App :=
  {| input := input a; msgs := f (msgs a); loading := loading a;
     localStorage := localStorage a; requests := requests a |}.

Definition setLoading (b : bool) (a : App) : App :=
  {| input := input a; msgs := msgs a; loading := b;
     localStorage := localStorage a; requests := requests a |}.

Definition withStorage (f : gmap (list N) (list N) -> gmap (list N) (list N))
  (a : App) : App :=
  {| input := input a; msgs := msgs a; loading := loading a;
     localStorage := f (localStorage a); requests := requests a |}.

Definition fetch (r : Request) (a : App) : App :=
  {| input := input a; msgs := msgs a; loading := loading a;
     localStorage := localStorage a; requests := requests a ++ [r] |}.

(** The render that follows a handler which called [setMsgs]: the new
    array differs from the old one, so the effect of lines 42-44 runs. *)
Definition rendered (a : App) : App :=
  withStorage (persist (msgs a)) a.

(** What the [catch] clause reads of the value it caught:
    [err?.message], [None] when it is [undefined]. *)
Record Thrown := { message : option (list N) }.

(** How the [try] block of [sendPrompt] ends: [fetch] and [r.json()]
    both fulfil and give [data], or something in the block throws
    ([fetch] rejects on a network failure, [r.json()] rejects on a body
    that is not JSON, reading [data.answer] fails on the body [null]). *)
Inductive Outcome :=
| Responded (data : BackendOut)
| Threw (err : Thrown).

(** [o || d] for [o : string | undefined]. *)
Definition or_default (o : option (list N)) (d : list N) : list N :=
  match o with Some s => or_else s d | None => d end.

(** [[...msgs].reverse().find((m) => m.role === "user")] *)
Definition lastUser (history : list ChatMsg) : option ChatMsg :=
  List.find is_user (rev history).

(** The updater of lines 115-122: a copy without its last element when
    that element is an assistant message. *)
Definition popTrailingAssistant (m : list ChatMsg) : list ChatMsg :=
  match last m with
  | Some l => if is_assistant l then removelast m else m
  | None => m
  end.

Section Component.

(** [API_BASE] of [./config], and the local date format of the browser
    ([new Date(ts).toLocaleString()]). *)
Variable API_BASE : list N.
Variable toLocaleString : Z -> list N.

Definition FN_URL : list N := API_BASE.

(** [sendPrompt] up to its first [await] (lines 53-67).  [uuid] and [now]
    are what [crypto.randomUUID()] and [Date.now()] return. *)
Definition sendPrompt (prompt uuid : list N) (now : Z) (a : App) : App :=
  let userMsg := UserMsg uuid prompt now in
  let a := setMsgs (fun m => m ++ [userMsg]) a in
  let a := setLoading true a in
  fetch {| url := FN_URL ++ js "/rag";
           method := js "POST";
           headers := [(js "Content-Type", js "application/json")];
           body := JSON_stringify
                     (JObject [(js "question", JString (trim prompt))]) |} a.

(** The assistant message of lines 70-77 or of lines 80-86. *)
Definition asstMsg (o : Outcome) (uuid : list N) (now : Z) : ChatMsg :=
  match o with
  | Responded data =>
      AssistantMsg uuid (or_default (answer data) []) now
        (sources data) (error data)
  | Threw err =>
      AssistantMsg uuid [] now None
        (Some (or_default (message err) (js "Network error")))
  end.

(** [sendPrompt] after its [await]s (lines 68-90): the [try] block ended
    with [o]; then the [finally] clause. *)
Definition sendPrompt_resume (o : Outcome) (uuid : list N) (now : Z) (a : App)
  : App :=
  let a := setMsgs (fun m => m ++ [asstMsg o uuid now]) a in
  setLoading false a.

(** The four things that happen to the component. *)

(** [onSubmit] (lines 93-99). *)
Definition onSubmit (uuid : list N) (now : Z) (a : App) : App :=
  if negb (truthy (trim (input a))) || loading a then a
  else
    let q := trim (input a) in
    let a := setInput [] a in
    rendered (sendPrompt q uuid now a).

(** [onKeyDown] of the text area (lines 177-182). *)
Definition onKeyDown (key : list N) (shiftKey : bool) (uuid : list N) (now : Z)
  (a : App) : App :=
  if jsstring_eqb key (js "Enter") && negb shiftKey then
    if truthy (trim (input a)) && negb (loading a) then onSubmit uuid now a
    else a
  else a.

(** The response of a pending request arrives. *)
Definition settle (o : Outcome) (uuid : list N) (now : Z) (a : App) : App :=
  rendered (sendPrompt_resume o uuid now a).

(** [newChat] (lines 101-105). *)
Definition newChat (a : App) : App :=
  let a := setMsgs (fun _ => []) a in
  let a := withStorage (removeItem LS_KEY) a in
  let a := setInput [] a in
  rendered a.

(** [regenerate] (lines 108-124). *)
Definition regenerate (uuid : list N) (now : Z) (a : App) : App :=
  if loading a then a
  else
    match lastUser (msgs a) with
    | None => a
    | Some lastUser =>
        let a := setLoading true a in
        let a := setMsgs popTrailingAssistant a in
        rendered (sendPrompt (text lastUser) uuid now a)
    end.

(* ================================================================== *)
(** * Presentation *)

(** What a component returns: text, or an element with its properties
    and children. *)
#[warnings="-register-all"]
Inductive Node :=
| Text (s : list N)
| Element (tag : string) (props : list (string * list N)) (children : list Node).

(** A property of an element: its name and its value. *)
Definition attr (name : string) (value : list N) : string * list N :=
  (name, value).

Definition em_dash : N := 8212.

(** [toHref] (lines 36-39); [None] is [undefined]. *)
Definition toHref (s : list N) : option (list N) :=
  if test_http_url s then Some s else None.

(** [formatTs] (lines 301-308). *)
Definition formatTs (ts : Z) : list N := toLocaleString ts.

(** The two ways a source is shown: the anchor of lines 259-266 and the
    inline code of line 268. *)
Definition SourceLink (href label : list N) : Node :=
  Element "a" [attr "href" href; attr "target" (js "_blank");
               attr "rel" (js "noreferrer"); attr "className" (js "source-link")]
    [Text label].

Definition SourceChip (label : list N) : Node :=
  Element "code" [attr "className" (js "code-chip")] [Text label].

(** The list item of one source (lines 254-276). *)
Definition SourceItem (s : Source) : Node :=
  let href := or_else_opt (toHref (key s)) (toHref (id s)) in
  Element "li" [attr "key" (id s); attr "className" (js "source-item")]
    [ (if truthy_opt href
       then SourceLink (default [] href) (id s)
       else SourceChip (id s));
      Element "span" [attr "className" (js "source-key")]
        [Text [32; em_dash; 32]; Element "code" [] [Text (key s)]] ].

(** [!!sources?.length] *)
Definition has_sources (sources : option (list Source)) : bool :=
  match sources with
  | Some (_ :: _) => true
  | _ => false
  end.

(** The children of the bubble when [error] is not truthy
    (lines 248-281). *)
Definition answer_children (text : list N) (ts : Z)
  (sources : option (list Source)) : list Node :=
  [Element "div" [attr "className" (js "bubble-text")]
     [Text (or_else text [em_dash])]]
  ++ (if has_sources sources then
        [Element "div" [attr "className" (js "bubble-sources")]
           [Element "div" [attr "className" (js "sources-title")]
              [Text (js "Sources")];
            Element "ul" [attr "className" (js "sources-list")]
              (List.map SourceItem (default [] sources))]]
      else [])
  ++ [Element "div" [attr "className" (js "bubble-meta")] [Text (formatTs ts)]].

(** The child of the bubble when [error] is truthy (line 246). *)
Definition error_children (error : list N) : list Node :=
  [Element "div" [attr "className" (js "bubble-error")]
     [Text (js "Error: "); Text error]].

(** [AssistantBubble] (lines 229-286). *)
Definition AssistantBubble (text : list N) (ts : Z)
  (sources : option (list Source)) (error : option (list N)) : Node :=
  Element "div" [attr "className" (js "bubble-row assistant")]
    [Element "div" [attr "className" (js "bubble assistant-bubble")]
       match error with
       | Some e => if truthy e then error_children e
                   else answer_children text ts sources
       | None => answer_children text ts sources
       end].

End Component.

(* ================================================================== *)
(** * The page: the rest of the component *)

(** [m.id] *)
Definition ChatMsg_id (m : ChatMsg) : list N :=
  match m with UserMsg i _ _ => i | AssistantMsg i _ _ _ _ => i end.

(** The [disabled] property of the Regenerate button (line 190). *)
Definition regenerateDisabled (a : App) : bool :=
  loading a || (length (msgs a) =? 0)%nat.

(** The [disabled] property of the Send button (line 198). *)
Definition sendDisabled (a : App) : bool :=
  loading a || negb (truthy (trim (input a))).

(** What happens to the component: the events of the text area, of the
    form and of the two buttons, and the arrival of a response. *)
Inductive Event :=
| Change (value : list N)
| Submit (uuid : list N) (now : Z)
| KeyDown (key : list N) (shiftKey : bool) (uuid : list N) (now : Z)
| Regenerate (uuid : list N) (now : Z)
| NewChat
| Settle (o : Outcome) (uuid : list N) (now : Z).

(** The identifier [crypto.randomUUID()] returns during the event, when
    the event can create a message. *)
Definition event_uuid (e : Event) : option (list N) :=
  match e with
  | Submit u _ | KeyDown _ _ u _ | Regenerate u _ | Settle _ u _ => Some u
  | Change _ | NewChat => None
  end.

(** The component with the number of responses it still waits for: one
    more for each request issued, one less for each response. *)
Record Client := { component : App; awaiting : nat }.

Section Page.

Variable API_BASE : list N.
Variable toLocaleString : Z -> list N.

(** The component when the page opens: [msgs] from the storage (lines
    26-33), then the first render, after which the effect of lines 42-44
    runs.  [None] when the storage holds a document of another type. *)
Definition mount (ls : gmap (list N) (list N)) : option App :=
  match load ls with
  | Restored history =>
      Some (rendered {| input := []; msgs := history; loading := false;
                        localStorage := ls; requests := [] |})
  | Foreign _ => None
  end.

(** The handler of each event; [Change] is [onChange] (line 176). *)
Definition step (e : Event) (a : App) : App :=
  match e with
  | Change value => setInput value a
  | Submit uuid now => onSubmit API_BASE uuid now a
  | KeyDown key shiftKey uuid now => onKeyDown API_BASE key shiftKey uuid now a
  | Regenerate uuid now => regenerate API_BASE uuid now a
  | NewChat => newChat a
  | Settle o uuid now => settle o uuid now a
  end.

(** One event on the client.  A response can only arrive for a request
    that is still awaited: [None] otherwise. *)
Definition dispatch (e : Event) (c : Client) : option Client :=
  match e with
  | Settle o uuid now =>
      match awaiting c with
      | O => None
      | S k => Some {| component := settle o uuid now (component c);
                       awaiting := k |}
      end
  | _ =>
      let a' := step e (component c) in
      Some {| component := a';
              awaiting := awaiting c
                          + (length (requests a')
                             - length (requests (component c))) |}
  end.

Fixpoint run (es : list Event) (c : Client) : option Client :=
  match es with
  | [] => Some c
  | e :: es' => c' ← dispatch e c; run es' c'
  end.

(** [UserBubble] (lines 218-227). *)
Definition UserBubble (text : list N) (ts : Z) : Node :=
  Element "div" [attr "className" (js "bubble-row user")]
    [Element "div" [attr "className" (js "bubble user-bubble")]
       [Element "div" [attr "className" (js "bubble-text")] [Text text];
        Element "div" [attr "className" (js "bubble-meta")]
          [Text (formatTs toLocaleString ts)]]].

(** [TypingBubble] (lines 288-298). *)
Definition TypingBubble : Node :=
  Element "div" [attr "className" (js "bubble-row assistant")]
    [Element "div" [attr "className" (js "bubble assistant-bubble typing")]
       [Element "span" [attr "className" (js "dot")] [];
        Element "span" [attr "className" (js "dot")] [];
        Element "span" [attr "className" (js "dot")] []]].

(** The bubble of one message (lines 150-163). *)
Definition MessageBubble (m : ChatMsg) : Node :=
  match m with
  | UserMsg _ text ts => UserBubble text ts
  | AssistantMsg _ text ts sources error =>
      AssistantBubble toLocaleString text ts sources error
  end.

(** The chat area (lines 149-168): the bubbles in the order of the
    messages, the typing bubble while [loading], the anchor that is
    scrolled into view. *)
Definition ChatArea (a : App) : Node :=
  Element "main" [attr "className" (js "chat")]
    (List.map MessageBubble (msgs a)
     ++ (if loading a then [TypingBubble] else [])
     ++ [Element "div" [] []]).

End Page.

(** The controller and the count of awaited responses agree: [loading]
    with one response awaited, or idle with none. *)
Definition in_step (c : Client) : Prop :=
  (loading (component c) = true /\ awaiting c = 1%nat)
  \/ (loading (component c) = false /\ awaiting c = 0%nat).

(** The local storage holds the conversation that is on screen. *)
Definition mirrored (a : App) : Prop :=
  load (localStorage a) = Restored (msgs a).

(** The requests [sendPrompt] makes: a POST of a JSON body to
    [API_BASE/rag], the body being an object whose only member
    [question] is a trimmed string. *)
Definition rag_request (API_BASE : list N) (r : Request) : Prop :=
  url r = API_BASE ++ js "/rag"
  /\ method r = js "POST"
  /\ headers r = [(js "Content-Type", js "application/json")]
  /\ exists q, trim q = q
               /\ JSON_parse (body r) = Some (JObject [(js "question", JString q)]).

(* ================================================================== *)
(** * Notions used in the proofs about JSON text *)

(** The text after a value does not continue a numeral. *)
Definition delimited (rest : list N) : Prop :=
  match rest with
  | [] => True
  | c :: _ => is_numeral_unit c = false
  end.

(** The text of [v] begins with a character that is neither white space
    nor a closing bracket, and [parse_value] reads [v] back from it,
    whatever delimited text follows, with fuel for the length of the
    text. *)
Definition parses_back (v : JSON) : Prop :=
  (exists c p, JSON_stringify v = c :: p
               /\ is_json_space c = false /\ c <> 93 /\ c <> 125)
  /\ forall fuel rest,
       (length (JSON_stringify v) <= fuel)%nat ->
       delimited rest ->
       parse_value fuel (JSON_stringify v ++ rest) = Some (v, rest).

(** [parse_units] after one more character [c] of the string. *)
Definition cons_unit (c : N) (o : option (list N * list N))
  : option (list N * list N) :=
  '(r, rest) ← o; Some (c :: r, rest).

(** Saving and reading back [n] times in a row, nothing else happening in
    between: the conversation and the storage at the end. *)
Fixpoint reload (n : nat) (history : list ChatMsg) (ls : gmap (list N) (list N))
  : option (list ChatMsg * gmap (list N) (list N)) :=
  match n with
  | O => Some (history, ls)
  | S n' =>
      match load (persist history ls) with
      | Restored history' => reload n' history' (persist history ls)
      | Foreign _ => None
      end
  end.

(** A decimal numeral without superfluous zero in front. *)
Definition normal_uint (d : Decimal.uint) : Prop :=
  d = Decimal.D0 Decimal.Nil
  \/ (d <> Decimal.Nil /\ forall d', d <> Decimal.D0 d').

(* ================================================================== *)
(** * Properties of the request controller *)

Section Controller.

Variable API_BASE : list N.

Lemma msgs_rendered a : msgs (rendered a) = msgs a.
Proof. reflexivity. Qed.

Lemma loading_rendered a : loading (rendered a) = loading a.
Proof. reflexivity. Qed.

Lemma requests_rendered a : requests (rendered a) = requests a.
Proof. reflexivity. Qed.

Lemma is_assistant_asstMsg o uuid now : is_assistant (asstMsg o uuid now) = true.
Proof. destruct o; reflexivity. Qed.

(** The first half of [sendPrompt] appends the user message, raises
    [loading] and issues one request. *)
Lemma sendPrompt_spec prompt uuid now a :
  msgs (sendPrompt API_BASE prompt uuid now a) = msgs a ++ [UserMsg uuid prompt now]
  /\ loading (sendPrompt API_BASE prompt uuid now a) = true
  /\ exists r, requests (sendPrompt API_BASE prompt uuid now a) = requests a ++ [r].
Proof. repeat split. eexists. reflexivity. Qed.

(** The second half appends the assistant message and lowers
    [loading]; it issues nothing. *)
Lemma sendPrompt_resume_spec o uuid now a :
  msgs (sendPrompt_resume o uuid now a) = msgs a ++ [asstMsg o uuid now]
  /\ loading (sendPrompt_resume o uuid now a) = false
  /\ requests (sendPrompt_resume o uuid now a) = requests a.
Proof. repeat split. Qed.

(** ** The last user message *)

Lemma lastUser_None history :
  lastUser history = None <-> Forall (fun m => role m = assistant) history.
Proof.
  unfold lastUser. split.
  - intros H. apply List.Forall_forall. intros m Hm.
    apply in_rev in Hm. apply (find_none _ _ H) in Hm.
    unfold is_user in Hm. destruct (role m); [discriminate | reflexivity].
  - intros H. destruct (find is_user (rev history)) as [m|] eqn:E; [|reflexivity].
    apply find_some in E. destruct E as [Hin Hu].
    apply in_rev in Hin. rewrite List.Forall_forall in H.
    apply H in Hin. unfold is_user in Hu. rewrite Hin in Hu. discriminate.
Qed.

(** The message [lastUser] finds is a user message and only assistant
    messages follow it. *)
Lemma lastUser_Some history u :
  lastUser history = Some u ->
  role u = user
  /\ exists before after,
       history = before ++ u :: after
       /\ Forall (fun m => role m = assistant) after.
Proof.
  unfold lastUser. intros H.
  cut (role u = user
       /\ exists before after,
            rev (rev history) = before ++ u :: after
            /\ Forall (fun m => role m = assistant) after).
  { rewrite rev_involutive. trivial. }
  revert H. generalize (rev history) as l. intros l.
  induction l as [|m l IH]; simpl; [discriminate|].
  destruct (is_user m) eqn:E.
  - intros [= ->]. split.
    + unfold is_user in E. destruct (role u); [reflexivity | discriminate].
    + exists (rev l), []. split; [reflexivity | constructor].
  - intros H. destruct (IH H) as [Hu (b & af & Heq & Haf)]. split; [exact Hu|].
    exists b, (af ++ [m]). split.
    + rewrite Heq. rewrite <- List.app_assoc. reflexivity.
    + apply List.Forall_app. split; [exact Haf|].
      constructor; [|constructor].
      unfold is_user in E. destruct (role m); [discriminate | reflexivity].
Qed.

Lemma lastUser_exists history :
  (exists m, In m history /\ role m = user) -> exists u, lastUser history = Some u.
Proof.
  intros (m & Hin & Hr).
  destruct (lastUser history) as [u|] eqn:E; [eauto|].
  apply lastUser_None in E. rewrite List.Forall_forall in E.
  apply E in Hin. congruence.
Qed.

(** ** The trailing assistant message *)

Lemma popTrailingAssistant_snoc_assistant init l :
  role l = assistant -> popTrailingAssistant (init ++ [l]) = init.
Proof.
  intros H. unfold popTrailingAssistant. rewrite last_snoc.
  unfold is_assistant. rewrite H. apply removelast_last.
Qed.

Lemma popTrailingAssistant_snoc_user init l :
  role l = user -> popTrailingAssistant (init ++ [l]) = init ++ [l].
Proof.
  intros H. unfold popTrailingAssistant. rewrite last_snoc.
  unfold is_assistant. rewrite H. reflexivity.
Qed.

Lemma popTrailingAssistant_nil : popTrailingAssistant [] = [].
Proof. reflexivity. Qed.

End Controller.

(* ================================================================== *)
(** * The request controller: [sendPrompt], [onSubmit], [regenerate] *)

(** An input that is not empty after trimming, submitted while no
    request is in flight, is sent: the input is cleared, the trimmed
    prompt appended as user message, [loading] raised, one request
    issued. *)
Lemma onSubmit_accepts (API_BASE uuid : list N) (now : Z) (a : App) :
  trim (input a) <> [] ->
  loading a = false ->
  input (onSubmit API_BASE uuid now a) = []
  /\ msgs (onSubmit API_BASE uuid now a)
     = msgs a ++ [UserMsg uuid (trim (input a)) now]
  /\ loading (onSubmit API_BASE uuid now a) = true
  /\ exists r, requests (onSubmit API_BASE uuid now a) = requests a ++ [r].
Proof.
  intros Hq Hl. unfold onSubmit. rewrite Hl.
  destruct (trim (input a)) as [|c q] eqn:E; [congruence|].
  cbn. repeat split. eexists. reflexivity.
Qed.

(** C1.  For every prompt that is not empty after trimming, one call of
    [sendPrompt] appends exactly one user message at once, before the
    request resolves, and exactly one assistant message when it resolves,
    however it resolves (an answer, an error reported by the backend, a
    network or parse failure): never none, never two. *)
Theorem sendPrompt_appends_one_user_then_one_assistant
  (API_BASE prompt uuid : list N) (now : Z) (a : App) :
  trim prompt <> [] ->
  msgs (sendPrompt API_BASE prompt uuid now a)
    = msgs a ++ [UserMsg uuid prompt now]
  /\ (forall (o : Outcome) (uuid' : list N) (now' : Z) (a' : App),
        exists m, role m = assistant
          /\ msgs (sendPrompt_resume o uuid' now' a') = msgs a' ++ [m])
  /\ (forall (o : Outcome) (uuid' : list N) (now' : Z),
        exists m, role m = assistant
          /\ msgs (sendPrompt_resume o uuid' now'
                     (sendPrompt API_BASE prompt uuid now a))
             = msgs a ++ [UserMsg uuid prompt now; m]).
Proof.
  intros _. split; [reflexivity|]. split.
  - intros o uuid' now' a'. exists (asstMsg o uuid' now').
    split; [destruct o; reflexivity | reflexivity].
  - intros o uuid' now'. exists (asstMsg o uuid' now').
    split; [destruct o; reflexivity|].
    cbn. rewrite <- List.app_assoc. reflexivity.
Qed.

Lemma sendPrompt_appends_one_user_then_one_assistant_witness :
  trim (js " What is X? ") <> []
  /\ msgs (sendPrompt (js "https://api") (js " What is X? ") (js "u1") 1
             {| input := []; msgs := []; loading := false;
                localStorage := ∅; requests := [] |})
     = [UserMsg (js "u1") (js " What is X? ") 1].
Proof.
  split; [discriminate|].
  apply (sendPrompt_appends_one_user_then_one_assistant
           (js "https://api") (js " What is X? ") (js "u1") 1
           {| input := []; msgs := []; loading := false;
              localStorage := ∅; requests := [] |}).
  discriminate.
Defined.

(** C8.  For every call of [sendPrompt] under its precondition (a prompt
    that is not empty after trimming, no request in flight), [loading] is
    raised while the request is pending and is lowered when the call
    resolves, whatever the outcome. *)
Theorem sendPrompt_returns_to_idle
  (API_BASE prompt uuid : list N) (now : Z) (a : App) :
  trim prompt <> [] ->
  loading a = false ->
  loading (sendPrompt API_BASE prompt uuid now a) = true
  /\ (forall (o : Outcome) (uuid' : list N) (now' : Z),
        loading (sendPrompt_resume o uuid' now'
                   (sendPrompt API_BASE prompt uuid now a)) = false)
  /\ (forall (o : Outcome) (uuid' : list N) (now' : Z) (a' : App),
        loading (sendPrompt_resume o uuid' now' a') = false
        /\ loading (settle o uuid' now' a') = false).
Proof. intros _ _. repeat split. Qed.

Lemma sendPrompt_returns_to_idle_witness :
  loading (sendPrompt_resume (Threw {| message := None |}) (js "u2") 2
             (sendPrompt [] (js "q") (js "u1") 1
                {| input := []; msgs := []; loading := false;
                   localStorage := ∅; requests := [] |})) = false.
Proof.
  apply (sendPrompt_returns_to_idle [] (js "q") (js "u1") 1
           {| input := []; msgs := []; loading := false;
              localStorage := ∅; requests := [] |});
    [discriminate | reflexivity].
Defined.

(** C4.  An input that is empty after trimming is rejected: [onSubmit]
    (and the Enter key, which leads to it) returns the component as it
    was, so no message is appended and no request is issued. *)
Theorem empty_input_is_rejected
  (API_BASE uuid : list N) (now : Z) (a : App) :
  trim (input a) = [] ->
  onSubmit API_BASE uuid now a = a
  /\ msgs (onSubmit API_BASE uuid now a) = msgs a
  /\ requests (onSubmit API_BASE uuid now a) = requests a
  /\ forall key shiftKey, onKeyDown API_BASE key shiftKey uuid now a = a.
Proof.
  intros H.
  assert (E : onSubmit API_BASE uuid now a = a).
  { unfold onSubmit. rewrite H. reflexivity. }
  rewrite E. repeat split.
  intros key shiftKey. unfold onKeyDown. rewrite H. simpl.
  destruct (_ && _); reflexivity.
Qed.

Lemma empty_input_is_rejected_witness :
  onSubmit (js "https://api") (js "u1") 1
    {| input := js "  "; msgs := []; loading := false;
       localStorage := ∅; requests := [] |}
  = {| input := js "  "; msgs := []; loading := false;
       localStorage := ∅; requests := [] |}.
Proof.
  apply (empty_input_is_rejected (js "https://api") (js "u1") 1
           {| input := js "  "; msgs := []; loading := false;
              localStorage := ∅; requests := [] |}).
  reflexivity.
Defined.

(** C6.  On a conversation without user message [regenerate] does
    nothing: messages, [loading], storage and requests stay as they
    are. *)
Theorem regenerate_without_user_is_noop
  (API_BASE uuid : list N) (now : Z) (a : App) :
  Forall (fun m => role m = assistant) (msgs a) ->
  regenerate API_BASE uuid now a = a.
Proof.
  intros H. apply lastUser_None in H. unfold regenerate. rewrite H.
  destruct (loading a); reflexivity.
Qed.

Lemma regenerate_without_user_is_noop_witness :
  regenerate (js "https://api") (js "u1") 1
    {| input := []; msgs := [AssistantMsg (js "a") (js "hello") 0 None None];
       loading := false; localStorage := ∅; requests := [] |}
  = {| input := []; msgs := [AssistantMsg (js "a") (js "hello") 0 None None];
       loading := false; localStorage := ∅; requests := [] |}.
Proof.
  apply (regenerate_without_user_is_noop (js "https://api") (js "u1") 1
           {| input := [];
              msgs := [AssistantMsg (js "a") (js "hello") 0 None None];
              loading := false; localStorage := ∅; requests := [] |}).
  repeat constructor.
Defined.

(** C7.  When the [try] block throws (network failure, body that is not
    JSON), [sendPrompt] appends an assistant message with empty text and
    without sources, whose [error] is the message of the failure, or
    ["Network error"] when the failure has no message or an empty one;
    [error] is never empty. *)
Theorem failure_gives_error_message
  (err : Thrown) (uuid : list N) (now : Z) (a : App) :
  exists e,
    msgs (sendPrompt_resume (Threw err) uuid now a)
      = msgs a ++ [AssistantMsg uuid [] now None (Some e)]
    /\ e <> []
    /\ (forall d, message err = Some d -> d <> [] -> e = d)
    /\ (message err = None \/ message err = Some [] -> e = js "Network error").
Proof.
  exists (or_default (message err) (js "Network error")).
  split; [reflexivity|].
  destruct err as [[[|c d]|]]; cbn.
  - split; [discriminate|]. split; [intros d [= <-]; congruence | reflexivity].
  - split; [discriminate|]. split; [intros d' [= <-]; reflexivity|].
    intros [|]; discriminate.
  - split; [discriminate|]. split; [discriminate | reflexivity].
Qed.

(** While a request is in flight [regenerate] returns at once
    (line 109). *)
Lemma regenerate_while_sending (API_BASE uuid : list N) (now : Z) (a : App) :
  loading a = true -> regenerate API_BASE uuid now a = a.
Proof. intros H. unfold regenerate. rewrite H. reflexivity. Qed.

(** C2.  Under the precondition of the operation, no request in flight,
    and on a conversation with a user message, [regenerate] removes the
    last message exactly when it is an assistant message, then appends a
    user message with the text of the most recent user message; the
    resumption of [sendPrompt] appends an assistant message after it. *)
Theorem regenerate_when_idle
  (API_BASE uuid : list N) (now : Z) (a : App) :
  loading a = false ->
  (exists m, In m (msgs a) /\ role m = user) ->
  exists u before after,
    msgs a = before ++ u :: after
    /\ role u = user
    /\ Forall (fun m => role m = assistant) after
    /\ (forall init l, msgs a = init ++ [l] -> role l = assistant ->
          msgs (regenerate API_BASE uuid now a)
            = init ++ [UserMsg uuid (text u) now])
    /\ (forall init l, msgs a = init ++ [l] -> role l = user ->
          msgs (regenerate API_BASE uuid now a)
            = msgs a ++ [UserMsg uuid (text u) now])
    /\ (forall (o : Outcome) (uuid' : list N) (now' : Z),
          exists m, role m = assistant
            /\ msgs (sendPrompt_resume o uuid' now'
                       (regenerate API_BASE uuid now a))
               = msgs (regenerate API_BASE uuid now a) ++ [m]).
Proof.
  intros Hidle Hex.
  destruct (lastUser_exists _ Hex) as [u Hu].
  destruct (lastUser_Some _ _ Hu) as [Hrole (before & after & Heq & Hafter)].
  exists u, before, after. repeat (split; [assumption|]).
  assert (E : msgs (regenerate API_BASE uuid now a)
              = popTrailingAssistant (msgs a) ++ [UserMsg uuid (text u) now]).
  { unfold regenerate. rewrite Hidle, Hu. reflexivity. }
  split; [|split].
  - intros init l Hl Hr. rewrite E, Hl.
    rewrite popTrailingAssistant_snoc_assistant by assumption. reflexivity.
  - intros init l Hl Hr. rewrite E, Hl.
    rewrite popTrailingAssistant_snoc_user by assumption. reflexivity.
  - intros o uuid' now'. exists (asstMsg o uuid' now').
    split; [destruct o; reflexivity | reflexivity].
Qed.

Lemma regenerate_when_idle_witness :
  exists u before after,
    [UserMsg (js "u1") (js "q") 1; AssistantMsg (js "a1") (js "r") 2 None None]
      = before ++ u :: after
    /\ msgs (regenerate [] (js "u2") 3
               {| input := [];
                  msgs := [UserMsg (js "u1") (js "q") 1;
                           AssistantMsg (js "a1") (js "r") 2 None None];
                  loading := false; localStorage := ∅; requests := [] |})
       = [UserMsg (js "u1") (js "q") 1; UserMsg (js "u2") (text u) 3].
Proof.
  destruct (regenerate_when_idle [] (js "u2") 3
              {| input := [];
                 msgs := [UserMsg (js "u1") (js "q") 1;
                          AssistantMsg (js "a1") (js "r") 2 None None];
                 loading := false; localStorage := ∅; requests := [] |})
    as (u & before & after & Heq & _ & _ & Hpop & _).
  - reflexivity.
  - eexists. split; [left; reflexivity | reflexivity].
  - exists u, before, after. split; [exact Heq|].
    apply (Hpop [UserMsg (js "u1") (js "q") 1]
             (AssistantMsg (js "a1") (js "r") 2 None None));
      reflexivity.
Defined.

(* ================================================================== *)
(** * String literals: [quote] and [parse_units] *)

Lemma hex_value_hex_digit n : n < 16 -> hex_value (hex_digit n) = Some n.
Proof.
  intros H. unfold hex_value, hex_digit.
  destruct (N.ltb_spec n 10).
  - replace ((48 <=? 48 + n) && (48 + n <=? 57)) with true
      by (symmetry; apply andb_true_iff; split; apply N.leb_le; lia).
    f_equal. lia.
  - replace ((48 <=? 87 + n) && (87 + n <=? 57)) with false
      by (symmetry; apply andb_false_iff; right; apply N.leb_gt; lia).
    replace ((97 <=? 87 + n) && (87 + n <=? 102)) with true
      by (symmetry; apply andb_true_iff; split; apply N.leb_le; lia).
    f_equal. lia.
Qed.

Lemma parse_unicode_escape c t :
  c < 65536 ->
  match unicode_escape c ++ t with
  | 92 :: 117 :: h1 :: h2 :: h3 :: h4 :: t' => hex4 h1 h2 h3 h4 = Some c /\ t' = t
  | _ => False
  end.
Proof.
  intros H. cbn. split; [|reflexivity]. unfold hex4.
  rewrite !hex_value_hex_digit by (apply N.mod_upper_bound; lia).
  cbn. f_equal.
  assert (Q2 : c / 256 = c / 16 / 16) by (rewrite N.Div0.div_div; reflexivity).
  assert (Q3 : c / 4096 = c / 256 / 16) by (rewrite N.Div0.div_div; reflexivity).
  pose proof (N.div_mod c 16 ltac:(lia)) as E0.
  pose proof (N.div_mod (c / 16) 16 ltac:(lia)) as E1.
  pose proof (N.div_mod (c / 256) 16 ltac:(lia)) as E2.
  rewrite <- Q2 in E1. rewrite <- Q3 in E2.
  assert (c / 4096 < 16) as Hq by (apply N.Div0.div_lt_upper_bound; lia).
  rewrite (N.mod_small (c / 4096) 16 Hq).
  lia.
Qed.


Lemma parse_units_unicode c t :
  c < 65536 -> parse_units (unicode_escape c ++ t) = cons_unit c (parse_units t).
Proof.
  intros H. pose proof (parse_unicode_escape c t H) as P.
  cbn in P. destruct P as [P _]. cbn. rewrite P. reflexivity.
Qed.

Lemma parse_units_quote_unit c t :
  parse_units (quote_unit c ++ t) = cons_unit c (parse_units t).
Proof.
  unfold quote_unit.
  repeat match goal with
         | |- context [?x =? ?k] =>
             destruct (N.eqb_spec x k) as [->|?]; [reflexivity|]
         end.
  destruct ((c <? 32) || is_high_surrogate c || is_low_surrogate c) eqn:E.
  - apply parse_units_unicode.
    unfold is_high_surrogate, is_low_surrogate in E.
    rewrite !orb_true_iff, !andb_true_iff, N.ltb_lt, !N.leb_le in E. lia.
  - rewrite !orb_false_iff in E. destruct E as [[E _] _].
    apply N.ltb_ge in E. cbn.
    destruct (N.eqb_spec c 34); [lia|]. destruct (N.eqb_spec c 92); [lia|].
    destruct (N.ltb_spec c 32); [lia|]. reflexivity.
Qed.

Lemma parse_units_surrogate c t :
  is_high_surrogate c = true \/ is_low_surrogate c = true ->
  parse_units (c :: t) = cons_unit c (parse_units t).
Proof.
  intros H. unfold is_high_surrogate, is_low_surrogate in H.
  rewrite !andb_true_iff, !N.leb_le in H. cbn.
  destruct (N.eqb_spec c 34); [lia|]. destruct (N.eqb_spec c 92); [lia|].
  destruct (N.ltb_spec c 32); [lia|]. reflexivity.
Qed.

Lemma quote_units_cons c r :
  quote_units (c :: r)
  = if is_high_surrogate c then
      match r with
      | d :: r' =>
          if is_low_surrogate d then c :: d :: quote_units r'
          else unicode_escape c ++ quote_units r
      | [] => unicode_escape c
      end
    else quote_unit c ++ quote_units r.
Proof. reflexivity. Qed.

Lemma high_surrogate_bound c : is_high_surrogate c = true -> c < 65536.
Proof.
  unfold is_high_surrogate. rewrite andb_true_iff, !N.leb_le. lia.
Qed.

Lemma parse_units_quote_units s :
  forall rest, parse_units (quote_units s ++ 34 :: rest) = Some (s, rest).
Proof.
  remember (length s) as n eqn:Hn.
  assert (Hle : (length s <= n)%nat) by lia. clear Hn.
  revert s Hle. induction n as [|n IH]; intros s Hle rest.
  - destruct s; [reflexivity | simpl in Hle; lia].
  - destruct s as [|c r]; [reflexivity|].
    simpl in Hle. rewrite quote_units_cons.
    destruct (is_high_surrogate c) eqn:Hc.
    + destruct r as [|d r'].
      * rewrite parse_units_unicode by (apply high_surrogate_bound, Hc).
        reflexivity.
      * destruct (is_low_surrogate d) eqn:Hd.
        -- change ((c :: d :: quote_units r') ++ 34 :: rest)
             with (c :: d :: (quote_units r' ++ 34 :: rest)).
           rewrite parse_units_surrogate by auto.
           rewrite parse_units_surrogate by auto.
           rewrite IH by (simpl in Hle; lia). reflexivity.
        -- rewrite <- List.app_assoc.
           rewrite parse_units_unicode by (apply high_surrogate_bound, Hc).
           rewrite IH by lia. reflexivity.
    + rewrite <- List.app_assoc. rewrite parse_units_quote_unit.
      rewrite IH by lia. reflexivity.
Qed.

Lemma parse_units_quote s rest :
  match quote s ++ rest with
  | 34 :: t => parse_units t = Some (s, rest)
  | _ => False
  end.
Proof.
  unfold quote. cbn. rewrite <- List.app_assoc. apply parse_units_quote_units.
Qed.

(* ================================================================== *)
(** * Numerals *)

Lemma units_of_uint_digits d : Forall (fun c => is_digit c = true) (units_of_uint d).
Proof. induction d; simpl; constructor; auto. Qed.

Lemma uint_of_units_of_uint d : uint_of_units (units_of_uint d) = Some d.
Proof. induction d; simpl; [reflexivity | rewrite IHd; reflexivity ..]. Qed.

Lemma is_digit_numeral_unit c : is_digit c = true -> is_numeral_unit c = true.
Proof. intros H. unfold is_numeral_unit. rewrite H. reflexivity. Qed.

Lemma span_numeral_app l rest :
  Forall (fun c => is_numeral_unit c = true) l ->
  delimited rest ->
  span_numeral (l ++ rest) = (l, rest).
Proof.
  intros Hl Hr. induction Hl as [|c l Hc _ IH]; simpl.
  - destruct rest as [|c r]; [reflexivity|]. simpl in Hr. simpl. rewrite Hr. reflexivity.
  - rewrite Hc, IH. reflexivity.
Qed.

Lemma skip_digits_all l :
  Forall (fun c => is_digit c = true) l -> skip_digits l = [].
Proof. induction 1 as [|c l Hc _ IH]; simpl; [|rewrite Hc]; auto. Qed.

Lemma to_uint_normal p : normal_uint (Pos.to_uint p).
Proof.
  right. split; [apply Unsigned.to_uint_nonnil|].
  intros d' E.
  assert (U : Decimal.unorm (Pos.to_uint p) = Pos.to_uint p).
  { rewrite <- (Unsigned.to_of (Pos.to_uint p)).
    rewrite Unsigned.of_to. reflexivity. }
  unfold Decimal.unorm in U.
  destruct (Decimal.nzhead (Pos.to_uint p)) eqn:Hz;
    try (rewrite <- U in E; discriminate E).
  - rewrite <- U in E. injection E as <-.
    apply (Unsigned.to_uint_nonzero p). symmetry. exact U.
  - rewrite <- U in Hz. apply (nzhead_nonzero _ _ Hz).
Qed.

Lemma to_int_normal z :
  match Z.to_int z with
  | Decimal.Pos d => normal_uint d
  | Decimal.Neg d => normal_uint d
  end.
Proof.
  destruct z; simpl.
  - left. reflexivity.
  - apply to_uint_normal.
  - apply to_uint_normal.
Qed.

Lemma int_part_normal d :
  normal_uint d -> int_part (units_of_uint d) = Some [].
Proof.
  intros [->|[Hn Hz]]; [reflexivity|].
  pose proof (units_of_uint_digits d) as Hd.
  destruct d; simpl in *; try congruence;
    try (exfalso; eapply Hz; reflexivity);
    inversion Hd; subst; rewrite skip_digits_all by assumption; reflexivity.
Qed.

Lemma valid_numeral_of_Z z : valid_numeral (numeral_of_Z z) = true.
Proof.
  unfold numeral_of_Z. pose proof (to_int_normal z) as H.
  destruct (Z.to_int z) as [d|d].
  - unfold valid_numeral.
    assert (E : match units_of_uint d with
                | c :: r => if c =? 45 then r else units_of_uint d
                | [] => []
                end = units_of_uint d).
    { destruct d; reflexivity. }
    rewrite E, int_part_normal by assumption. reflexivity.
  - unfold valid_numeral. simpl.
    rewrite int_part_normal by assumption. reflexivity.
Qed.

Lemma numeral_of_Z_units z :
  Forall (fun c => is_numeral_unit c = true) (numeral_of_Z z).
Proof.
  unfold numeral_of_Z.
  assert (H : forall d, Forall (fun c => is_numeral_unit c = true) (units_of_uint d)).
  { intros d. eapply List.Forall_impl; [|apply units_of_uint_digits].
    intros c. apply is_digit_numeral_unit. }
  destruct (Z.to_int z); [apply H | constructor; [reflexivity | apply H]].
Qed.

Lemma Z_of_numeral_of_Z z : Z_of_numeral (numeral_of_Z z) = Some z.
Proof.
  unfold numeral_of_Z, Z_of_numeral.
  pose proof (DecimalZ.of_to z) as E. pose proof (to_int_normal z) as Hn.
  destruct (Z.to_int z) as [d|d].
  - assert (Hd := units_of_uint_digits d).
    destruct (units_of_uint d) as [|c r] eqn:Hu.
    + destruct Hn as [->|[Hn _]]; [discriminate|]. destruct d; try discriminate.
      congruence.
    + apply List.Forall_cons_iff in Hd as [Hc _].
      destruct (N.eqb_spec c 45) as [->|_]; [discriminate|].
      rewrite <- Hu, uint_of_units_of_uint.
      change (Some (Z.of_int (Decimal.Pos d)) = Some z). rewrite E. reflexivity.
  - destruct (N.eqb_spec 45 45); [|congruence].
    rewrite uint_of_units_of_uint.
    change (Some (Z.of_int (Decimal.Neg d)) = Some z). rewrite E. reflexivity.
Qed.

Lemma numeral_of_Z_head z :
  exists c p, numeral_of_Z z = c :: p /\ (is_digit c = true \/ c = 45).
Proof.
  unfold numeral_of_Z. pose proof (to_int_normal z) as Hn.
  destruct (Z.to_int z) as [d|d].
  - assert (Hd := units_of_uint_digits d).
    destruct (units_of_uint d) as [|c r] eqn:Hu.
    + destruct Hn as [->|[Hn _]]; [discriminate|]. destruct d; try discriminate.
      congruence.
    + apply List.Forall_cons_iff in Hd as [Hc _]. eauto.
  - eauto.
Qed.

(* ================================================================== *)
(** * [JSON.parse] reads back what [JSON.stringify] writes *)

Lemma skip_ws_head c r : is_json_space c = false -> skip_ws (c :: r) = c :: r.
Proof. intros H. simpl. rewrite H. reflexivity. Qed.

Lemma delimited_comma rest : delimited (44 :: rest).
Proof. reflexivity. Qed.

Lemma delimited_bracket rest : delimited (93 :: rest).
Proof. reflexivity. Qed.

Lemma delimited_brace rest : delimited (125 :: rest).
Proof. reflexivity. Qed.

Lemma join_comma_cons2 p q r :
  join_comma (p :: q :: r) = p ++ 44 :: join_comma (q :: r).
Proof. reflexivity. Qed.

Lemma parses_back_nonempty v : parses_back v -> (1 <= length (JSON_stringify v))%nat.
Proof. intros [(c & p & -> & _) _]. simpl. lia. Qed.

Lemma parses_back_string s : parses_back (JString s).
Proof.
  split.
  - exists 34, (quote_units s ++ [34]). repeat split; discriminate.
  - intros fuel rest Hf _. destruct fuel as [|n]; [simpl in Hf; lia|].
    pose proof (parse_units_quote s rest) as P.
    change (JSON_stringify (JString s)) with (quote s).
    destruct (quote s ++ rest) as [|c t] eqn:E; [contradiction|].
    unfold quote in E. injection E as <- <-.
    simpl. rewrite P. reflexivity.
Qed.

Lemma valid_numeral_head l :
  valid_numeral l = true ->
  exists c t, l = c :: t /\ (is_digit c = true \/ c = 45).
Proof.
  destruct l as [|c t]; [discriminate|]. intros H. exists c, t. split; [reflexivity|].
  unfold valid_numeral in H.
  destruct (N.eqb_spec c 45); [auto|]. left.
  simpl in H. destruct (N.eqb_spec c 48) as [->|]; [reflexivity|].
  destruct (is_digit c); [reflexivity | discriminate].
Qed.

Lemma starts_with_head_ne k p c s :
  k <> c -> starts_with (k :: p) (c :: s) = None.
Proof. intros H. simpl. destruct (N.eqb_spec k c); [contradiction | reflexivity]. Qed.

Lemma parses_back_numeral l :
  valid_numeral l = true ->
  Forall (fun c => is_numeral_unit c = true) l ->
  parses_back (JNumber l).
Proof.
  intros Hv Hl. destruct (valid_numeral_head l Hv) as (c & t & -> & Hc).
  assert (Hrange : (48 <= c /\ c <= 57) \/ c = 45).
  { destruct Hc as [Hc|Hc]; [|auto]. left. unfold is_digit in Hc.
    rewrite andb_true_iff, !N.leb_le in Hc. exact Hc. }
  assert (Hsp : is_json_space c = false).
  { unfold is_json_space.
    destruct (N.eqb_spec c 32), (N.eqb_spec c 9), (N.eqb_spec c 10),
      (N.eqb_spec c 13); try reflexivity; lia. }
  split.
  - exists c, t. repeat split; [exact Hsp | lia | lia].
  - intros fuel rest Hf Hd. destruct fuel as [|n]; [simpl in Hf; lia|].
    change (JSON_stringify (JNumber (c :: t))) with (c :: t).
    cbn [parse_value]. rewrite <- List.app_comm_cons, skip_ws_head by exact Hsp.
    destruct (N.eqb_spec c 34); [lia|]. destruct (N.eqb_spec c 91); [lia|].
    destruct (N.eqb_spec c 123); [lia|].
    assert (T : starts_with (js "true") (c :: t ++ rest) = None).
    { change (js "true") with [116; 114; 117; 101].
      apply starts_with_head_ne. lia. }
    assert (F : starts_with (js "false") (c :: t ++ rest) = None).
    { change (js "false") with [102; 97; 108; 115; 101].
      apply starts_with_head_ne. lia. }
    assert (U : starts_with (js "null") (c :: t ++ rest) = None).
    { change (js "null") with [110; 117; 108; 108].
      apply starts_with_head_ne. lia. }
    rewrite T, F, U.
    rewrite List.app_comm_cons, span_numeral_app by assumption.
    rewrite Hv. reflexivity.
Qed.

Lemma parses_back_integer z : parses_back (JNumber (numeral_of_Z z)).
Proof.
  apply parses_back_numeral; [apply valid_numeral_of_Z | apply numeral_of_Z_units].
Qed.

Lemma parse_elements_join xs :
  xs <> [] ->
  Forall parses_back xs ->
  forall fuel rest,
    (1 + length (join_comma (List.map JSON_stringify xs)) <= fuel)%nat ->
    parse_elements fuel (join_comma (List.map JSON_stringify xs) ++ 93 :: rest)
    = Some (xs, rest).
Proof.
  intros Hne Hxs. induction Hxs as [|x xs Hx Hxs IH]; [congruence|].
  intros fuel rest Hf. destruct fuel as [|n]; [lia|].
  pose proof (parses_back_nonempty x Hx) as Hlen.
  destruct Hx as [_ Hx].
  destruct xs as [|y ys].
  - cbn [List.map join_comma parse_elements] in *.
    rewrite Hx by (first [reflexivity | lia]).
    reflexivity.
  - change (List.map JSON_stringify (x :: y :: ys))
      with (JSON_stringify x :: List.map JSON_stringify (y :: ys)) in Hf |- *.
    change (join_comma (JSON_stringify x :: List.map JSON_stringify (y :: ys)))
      with (JSON_stringify x
            ++ 44 :: join_comma (List.map JSON_stringify (y :: ys))) in Hf |- *.
    rewrite length_app in Hf. cbn [length] in Hf.
    cbn [parse_elements]. rewrite <- List.app_assoc.
    rewrite Hx by (first [reflexivity | lia]).
    rewrite <- List.app_comm_cons.
    cbn [mbind option_bind]. rewrite skip_ws_head by reflexivity.
    change (44 =? 44) with true. cbv iota.
    rewrite IH by (try discriminate; lia). reflexivity.
Qed.

Lemma parses_back_array xs : Forall parses_back xs -> parses_back (JArray xs).
Proof.
  intros Hxs. split.
  - exists 91, (join_comma (List.map JSON_stringify xs) ++ [93]).
    repeat split; discriminate.
  - intros fuel rest Hf _. destruct fuel as [|n]; [simpl in Hf; lia|].
    change (JSON_stringify (JArray xs))
      with (91 :: join_comma (List.map JSON_stringify xs) ++ [93]) in *.
    simpl in Hf. rewrite length_app in Hf. simpl in Hf.
    rewrite <- List.app_comm_cons, <- List.app_assoc.
    cbn [parse_value]. rewrite skip_ws_head by reflexivity.
    change (91 =? 34) with false. change (91 =? 91) with true. cbv iota.
    destruct xs as [|x xs']; [reflexivity|].
    pose proof (parse_elements_join (x :: xs') ltac:(discriminate) Hxs n rest
                  ltac:(lia)) as P.
    apply List.Forall_cons_iff in Hxs as [[(c & p & Ec & Hsp & H93 & _) _] _].
    assert (Eh : exists p', join_comma (List.map JSON_stringify (x :: xs')) = c :: p').
    { destruct xs'; simpl; rewrite Ec; eauto. }
    destruct Eh as [p' Eh]. rewrite Eh in *.
    rewrite <- List.app_comm_cons in *. rewrite skip_ws_head by exact Hsp.
    destruct (N.eqb_spec c 93); [contradiction|].
    change ([93] ++ rest) with (93 :: rest). rewrite P. reflexivity.
Qed.

Lemma parse_members_join ms :
  ms <> [] ->
  Forall (fun kv => parses_back (snd kv)) ms ->
  forall fuel rest,
    (1 + length (join_comma
                   (List.map
                      (fun kv => quote (fst kv) ++ [58%N] ++ JSON_stringify (snd kv))
                      ms)) <= fuel)%nat ->
    parse_members fuel
      (join_comma
         (List.map (fun kv => quote (fst kv) ++ [58] ++ JSON_stringify (snd kv)) ms)
       ++ 125 :: rest)
    = Some (ms, rest).
Proof.
  intros Hne Hms. induction Hms as [|[k v] ms Hv Hms IH]; [congruence|].
  intros fuel rest Hf. destruct fuel as [|n]; [lia|].
  simpl snd in Hv. pose proof (parses_back_nonempty v Hv) as Hlen.
  destruct Hv as [_ Hv].
  set (member := fun kv : list N * JSON =>
                   quote (fst kv) ++ [58] ++ JSON_stringify (snd kv)) in *.
  assert (Estep : forall tail,
             parse_members (S n) (member (k, v) ++ tail)
             = '(v', r') ← parse_value n (JSON_stringify v ++ tail);
               match skip_ws r' with
               | [] => None
               | c' :: t'' =>
                   if c' =? 44 then
                     '(ms', rest') ← parse_members n t'';
                     Some ((k, v') :: ms', rest')
                   else if c' =? 125 then Some ([(k, v')], t'')
                   else None
               end).
  { intros tail. unfold member. simpl fst. simpl snd.
    pose proof (parse_units_quote k (([58] ++ JSON_stringify v) ++ tail)) as P.
    rewrite <- !List.app_assoc in *.
    destruct (quote k ++ [58] ++ JSON_stringify v ++ tail) as [|q t] eqn:E;
      [contradiction|].
    unfold quote in E. injection E as <- <-.
    cbn [parse_members]. rewrite skip_ws_head by reflexivity.
    change (34 =? 34) with true. cbv iota. rewrite P.
    cbn [mbind option_bind]. 
    change ([58] ++ JSON_stringify v ++ tail) with (58 :: JSON_stringify v ++ tail).
    rewrite skip_ws_head by reflexivity.
    change (58 =? 58) with true. cbv iota. reflexivity. }
  destruct ms as [|m' ms'].
  - cbn [List.map join_comma] in *. rewrite Estep.
    assert (Hm : (length (member (k, v)) = 3 + length (quote_units k) + length (JSON_stringify v))%nat).
    { unfold member, quote. simpl fst. simpl snd. rewrite !length_app. simpl. lia. }
    rewrite Hv by (first [reflexivity | lia]). reflexivity.
  - change (List.map member ((k, v) :: m' :: ms'))
      with (member (k, v) :: List.map member (m' :: ms')) in Hf |- *.
    change (join_comma (member (k, v) :: List.map member (m' :: ms')))
      with (member (k, v) ++ 44 :: join_comma (List.map member (m' :: ms')))
      in Hf |- *.
    rewrite length_app in Hf. cbn [length] in Hf.
    assert (Hm : (length (member (k, v)) = 3 + length (quote_units k) + length (JSON_stringify v))%nat).
    { unfold member, quote. simpl fst. simpl snd. rewrite !length_app. simpl. lia. }
    rewrite <- List.app_assoc, Estep.
    rewrite Hv by (first [reflexivity | lia]).
    rewrite <- List.app_comm_cons.
    cbn [mbind option_bind]. rewrite skip_ws_head by reflexivity.
    change (44 =? 44) with true. cbv iota.
    rewrite IH by (try discriminate; lia). reflexivity.
Qed.

Lemma parses_back_object ms :
  Forall (fun kv => parses_back (snd kv)) ms -> parses_back (JObject ms).
Proof.
  intros Hms.
  set (member := fun kv : list N * JSON =>
                   quote (fst kv) ++ [58] ++ JSON_stringify (snd kv)).
  split.
  - exists 123, (join_comma (List.map member ms) ++ [125]).
    repeat split; discriminate.
  - intros fuel rest Hf _. destruct fuel as [|n]; [simpl in Hf; lia|].
    change (JSON_stringify (JObject ms))
      with (123 :: join_comma (List.map member ms) ++ [125]) in *.
    simpl in Hf. rewrite length_app in Hf. simpl in Hf.
    rewrite <- List.app_comm_cons, <- List.app_assoc.
    change ([125] ++ rest) with (125 :: rest).
    cbn [parse_value]. rewrite skip_ws_head by reflexivity.
    change (123 =? 34) with false. change (123 =? 91) with false.
    change (123 =? 123) with true. cbv iota.
    destruct ms as [|[k v] ms']; [reflexivity|].
    pose proof (parse_members_join ((k, v) :: ms') ltac:(discriminate) Hms n rest
                  ltac:(fold member; lia)) as P.
    fold member in P.
    assert (Eh : exists p', join_comma (List.map member ((k, v) :: ms')) = 34 :: p').
    { destruct ms'; simpl; eauto. }
    destruct Eh as [p' Eh]. rewrite Eh in *.
    rewrite <- List.app_comm_cons in *. rewrite skip_ws_head by reflexivity.
    change (34 =? 125) with false. cbv iota.
    rewrite P. reflexivity.
Qed.

(* ================================================================== *)
(** * The fuel of [JSON_parse] is enough *)

Lemma skip_ws_length s : (length (skip_ws s) <= length s)%nat.
Proof. induction s as [|c r IH]; simpl; [lia|]. destruct (is_json_space c); simpl; lia. Qed.

Tactic Notation "bind_inv" hyp(H) "as" ident(a) ident(b) ident(E) :=
  match type of H with
  | (?m ≫= _) = Some _ =>
      destruct m as [[a b]|] eqn:E;
      [cbn [mbind option_bind] in H | discriminate H]
  end.

Lemma parse_units_length s : forall k r, parse_units s = Some (k, r) -> (length r < length s)%nat.
Proof.
  remember (length s) as n eqn:Hn.
  assert (Hle : (length s <= n)%nat) by lia. clear Hn. revert s Hle.
  induction n as [|n IH]; intros s Hle k r H.
  - destruct s; [discriminate | simpl in Hle; lia].
  - destruct s as [|c t]; [discriminate|]. simpl in Hle. cbn [parse_units] in H.
    destruct (c =? 34); [injection H as <- <-; simpl; lia|].
    destruct (c =? 92).
    + destruct t as [|e t']; [discriminate|]. simpl in Hle.
      destruct (e =? 117).
      * destruct t' as [|h1 [|h2 [|h3 [|h4 t'']]]]; try discriminate.
        simpl in Hle. destruct (hex4 h1 h2 h3 h4); [|discriminate].
        cbn [mbind option_bind] in H. bind_inv H as k' r' E. injection H as <- <-.
        apply IH in E; [simpl; lia | lia].
      * destruct (unescape e); [|discriminate].
        cbn [mbind option_bind] in H. bind_inv H as k' r' E. injection H as <- <-.
        apply IH in E; [simpl; lia | lia].
    + destruct (c <? 32); [discriminate|]. bind_inv H as k' r' E.
      injection H as <- <-.
      apply IH in E; [simpl; lia | lia].
Qed.

Lemma starts_with_length p : forall s r, starts_with p s = Some r -> (length r <= length s)%nat.
Proof.
  induction p as [|x p IH]; intros s r H.
  - injection H as <-. lia.
  - destruct s as [|y s]; [discriminate|]. simpl in H.
    destruct (x =? y); [|discriminate]. apply IH in H. simpl. lia.
Qed.

Lemma span_numeral_length s : (length (snd (span_numeral s)) <= length s)%nat.
Proof.
  induction s as [|c r IH]; simpl; [lia|].
  destruct (is_numeral_unit c); [|simpl; lia].
  destruct (span_numeral r). simpl in *. lia.
Qed.

Lemma parse_lengths n :
  (forall s v r, parse_value n s = Some (v, r) -> (length r <= length s)%nat)
  /\ (forall s vs r, parse_elements n s = Some (vs, r) -> (length r <= length s)%nat)
  /\ (forall s ms r, parse_members n s = Some (ms, r) -> (length r <= length s)%nat).
Proof.
  induction n as [|n (IHv & IHe & IHm)]; [repeat split; discriminate|].
  split; [|split]; intros s x r H.
  - cbn [parse_value] in H. pose proof (skip_ws_length s) as Hs.
    destruct (skip_ws s) as [|c t]; [discriminate|]. simpl in Hs.
    destruct (c =? 34).
    { bind_inv H as k r' E. injection H as <- <-.
      apply parse_units_length in E. lia. }
    destruct (c =? 91).
    { pose proof (skip_ws_length t) as Ht.
      destruct (skip_ws t) as [|c' t']; [discriminate|]. simpl in Ht.
      destruct (c' =? 93); [injection H as <- <-; lia|].
      bind_inv H as vs r' E. injection H as <- <-.
      apply IHe in E. simpl in E. lia. }
    destruct (c =? 123).
    { pose proof (skip_ws_length t) as Ht.
      destruct (skip_ws t) as [|c' t']; [discriminate|]. simpl in Ht.
      destruct (c' =? 125); [injection H as <- <-; lia|].
      bind_inv H as ms r' E. injection H as <- <-.
      apply IHm in E. simpl in E. lia. }
    destruct (starts_with (js "true") (c :: t)) eqn:T.
    { injection H as <- <-. apply starts_with_length in T. simpl in T. lia. }
    destruct (starts_with (js "false") (c :: t)) eqn:F.
    { injection H as <- <-. apply starts_with_length in F. simpl in F. lia. }
    destruct (starts_with (js "null") (c :: t)) eqn:U.
    { injection H as <- <-. apply starts_with_length in U. simpl in U. lia. }
    pose proof (span_numeral_length (c :: t)) as Hn.
    destruct (span_numeral (c :: t)) as [numeral rest].
    destruct (valid_numeral numeral); [|discriminate].
    injection H as <- <-. simpl in Hn. lia.
  - cbn [parse_elements] in H. bind_inv H as v r1 E. apply IHv in E.
    pose proof (skip_ws_length r1) as Hs.
    destruct (skip_ws r1) as [|c t]; [discriminate|]. simpl in Hs.
    destruct (c =? 44).
    { bind_inv H as vs r2 E0. injection H as <- <-. apply IHe in E0. lia. }
    destruct (c =? 93); [|discriminate]. injection H as <- <-. lia.
  - cbn [parse_members] in H. pose proof (skip_ws_length s) as Hs.
    destruct (skip_ws s) as [|q t]; [discriminate|]. simpl in Hs.
    destruct (q =? 34); [|discriminate].
    bind_inv H as k r1 E. apply parse_units_length in E.
    pose proof (skip_ws_length r1) as Hs'.
    destruct (skip_ws r1) as [|c t']; [discriminate|]. simpl in Hs'.
    destruct (c =? 58); [|discriminate].
    bind_inv H as v r2 E0. apply IHv in E0.
    pose proof (skip_ws_length r2) as Hs''.
    destruct (skip_ws r2) as [|c' t'']; [discriminate|]. simpl in Hs''.
    destruct (c' =? 44).
    { bind_inv H as ms r3 E1. injection H as <- <-. apply IHm in E1. lia. }
    destruct (c' =? 125); [|discriminate]. injection H as <- <-. lia.
Qed.

Lemma parse_fuel n :
  (forall s m, (2 * length s + 1 <= n)%nat -> (n <= m)%nat ->
               parse_value m s = parse_value n s)
  /\ (forall s m, (2 * length s + 2 <= n)%nat -> (n <= m)%nat ->
                  parse_elements m s = parse_elements n s)
  /\ (forall s m, (2 * length s + 2 <= n)%nat -> (n <= m)%nat ->
                  parse_members m s = parse_members n s).
Proof.
  induction n as [|n (IHv & IHe & IHm)]; [repeat split; intros; lia|].
  split; [|split]; intros s m Hs Hm;
    (destruct m as [|m]; [lia|]).
  - cbn [parse_value]. pose proof (skip_ws_length s) as Hl.
    destruct (skip_ws s) as [|c t]; [reflexivity|]. simpl in Hl.
    destruct (c =? 34); [reflexivity|].
    destruct (c =? 91).
    { pose proof (skip_ws_length t) as Ht.
      destruct (skip_ws t) as [|c' t']; [reflexivity|]. simpl in Ht.
      destruct (c' =? 93); [reflexivity|].
      rewrite (IHe (c' :: t') m) by (simpl; lia). reflexivity. }
    destruct (c =? 123); [|reflexivity].
    pose proof (skip_ws_length t) as Ht.
    destruct (skip_ws t) as [|c' t']; [reflexivity|]. simpl in Ht.
    destruct (c' =? 125); [reflexivity|].
    rewrite (IHm (c' :: t') m) by (simpl; lia). reflexivity.
  - cbn [parse_elements]. rewrite (IHv s m) by lia.
    destruct (parse_value n s) as [[v r]|] eqn:E; [|reflexivity].
    apply (proj1 (parse_lengths n)) in E. cbn [mbind option_bind].
    pose proof (skip_ws_length r) as Hr.
    destruct (skip_ws r) as [|c t]; [reflexivity|]. simpl in Hr.
    destruct (c =? 44); [|reflexivity].
    rewrite (IHe t m) by lia. reflexivity.
  - cbn [parse_members]. pose proof (skip_ws_length s) as Hl.
    destruct (skip_ws s) as [|q t]; [reflexivity|]. simpl in Hl.
    destruct (q =? 34); [|reflexivity].
    destruct (parse_units t) as [[k r]|] eqn:E; [|reflexivity].
    apply parse_units_length in E. cbn [mbind option_bind].
    pose proof (skip_ws_length r) as Hr.
    destruct (skip_ws r) as [|c t']; [reflexivity|]. simpl in Hr.
    destruct (c =? 58); [|reflexivity].
    rewrite (IHv t' m) by lia.
    destruct (parse_value n t') as [[v r']|] eqn:E'; [|reflexivity].
    apply (proj1 (parse_lengths n)) in E'. cbn [mbind option_bind].
    pose proof (skip_ws_length r') as Hr'.
    destruct (skip_ws r') as [|c' t'']; [reflexivity|]. simpl in Hr'.
    destruct (c' =? 44); [|reflexivity].
    rewrite (IHm t'' m) by lia. reflexivity.
Qed.

(** More fuel than [JSON_parse] gives changes nothing. *)
Lemma JSON_parse_fuel s fuel :
  (2 * length s + 1 <= fuel)%nat ->
  parse_value fuel s = parse_value (2 * length s + 1) s.
Proof. intros H. apply (proj1 (parse_fuel (2 * length s + 1))); lia. Qed.

(* ================================================================== *)
(** * The persisted conversation *)

Lemma JSON_parse_stringify v : parses_back v -> JSON_parse (JSON_stringify v) = Some v.
Proof.
  intros [_ H]. unfold JSON_parse.
  rewrite <- (List.app_nil_r (JSON_stringify v)) at 2.
  rewrite H by (first [exact I | lia]). reflexivity.
Qed.

Lemma parses_back_Source s : parses_back (Source_toJSON s).
Proof.
  apply parses_back_object. repeat constructor; apply parses_back_string.
Qed.

Lemma parses_back_Sources l : parses_back (JArray (List.map Source_toJSON l)).
Proof.
  apply parses_back_array. apply List.Forall_forall. intros j Hj.
  apply List.in_map_iff in Hj as (s & <- & _). apply parses_back_Source.
Qed.

Lemma parses_back_ChatMsg m : parses_back (ChatMsg_toJSON m).
Proof.
  destruct m as [i t ts|i t ts srcs err]; apply parses_back_object.
  - repeat constructor;
      first [apply parses_back_string | apply parses_back_integer].
  - destruct srcs, err; repeat constructor;
      first [apply parses_back_string | apply parses_back_integer
            | apply parses_back_Sources].
Qed.

Lemma parses_back_ChatMsgs l : parses_back (ChatMsgs_toJSON l).
Proof.
  apply parses_back_array. apply List.Forall_forall. intros j Hj.
  apply List.in_map_iff in Hj as (m & <- & _). apply parses_back_ChatMsg.
Qed.

Lemma mapM_map_Some {A B} (f : B -> option A) (g : A -> B) (l : list A) :
  (forall x, f (g x) = Some x) -> mapM f (List.map g l) = Some l.
Proof.
  intros H. induction l as [|x l IH]; [reflexivity|].
  simpl. rewrite H. simpl. rewrite IH. reflexivity.
Qed.

Lemma as_Source_toJSON s : as_Source (Source_toJSON s) = Some s.
Proof. destruct s. reflexivity. Qed.

Lemma as_Sources_toJSON l : as_Sources (JArray (List.map Source_toJSON l)) = Some l.
Proof. apply mapM_map_Some, as_Source_toJSON. Qed.

Lemma as_ChatMsg_user i t n :
  as_ChatMsg (JObject [(js "id", JString i); (js "role", JString (js "user"));
                       (js "text", JString t); (js "ts", JNumber n)])
  = (ts ← Z_of_numeral n; Some (UserMsg i t ts)).
Proof. vm_compute. reflexivity. Qed.

Lemma as_ChatMsg_assistant i t n srcs err :
  as_ChatMsg
    (JObject ([(js "id", JString i); (js "role", JString (js "assistant"));
               (js "text", JString t); (js "ts", JNumber n)]
              ++ optional_member (js "sources")
                   (fun l => JArray (List.map Source_toJSON l)) srcs
              ++ optional_member (js "error") JString err))
  = (ts ← Z_of_numeral n;
     srcs' ← match srcs with
             | Some l => l' ← as_Sources (JArray (List.map Source_toJSON l));
                         Some (Some l')
             | None => Some None
             end;
     Some (AssistantMsg i t ts srcs' err)).
Proof. destruct srcs, err; vm_compute; reflexivity. Qed.

Lemma as_ChatMsg_toJSON m : as_ChatMsg (ChatMsg_toJSON m) = Some m.
Proof.
  destruct m as [i t ts|i t ts srcs err].
  - etransitivity; [apply (as_ChatMsg_user i t (numeral_of_Z ts))|].
    rewrite Z_of_numeral_of_Z. reflexivity.
  - etransitivity; [apply (as_ChatMsg_assistant i t (numeral_of_Z ts))|].
    rewrite Z_of_numeral_of_Z.
    destruct srcs as [l|]; [rewrite as_Sources_toJSON|]; reflexivity.
Qed.

Lemma as_ChatMsgs_toJSON l : as_ChatMsgs (ChatMsgs_toJSON l) = Some l.
Proof. apply mapM_map_Some, as_ChatMsg_toJSON. Qed.

Lemma load_persist history ls : load (persist history ls) = Restored history.
Proof.
  unfold load, persist, getItem, setItem. rewrite lookup_insert_eq.
  rewrite JSON_parse_stringify by apply parses_back_ChatMsgs.
  rewrite as_ChatMsgs_toJSON. reflexivity.
Qed.

Lemma persist_persist history ls :
  persist history (persist history ls) = persist history ls.
Proof. unfold persist, setItem. apply insert_insert_eq. Qed.

Example JSON_parse_accepts :
  JSON_parse (js " [1, -2.5e+3 ,{}, [true, null] ] ")
  = Some (JArray [JNumber (js "1"); JNumber (js "-2.5e+3"); JObject [];
                  JArray [JBool true; JNull]])
  /\ JSON_parse ([34] ++ js "aA\n\u00e9" ++ [34]) = Some (JString [97; 65; 10; 233])
  /\ JSON_parse ([123; 34; 107; 34; 58] ++ js "[]}")
     = Some (JObject [([107], JArray [])]).
Proof. repeat split. Qed.

Example JSON_parse_rejects :
  JSON_parse (js "[1,]") = None /\ JSON_parse (js "{oops") = None
  /\ JSON_parse (js "01") = None /\ JSON_parse [] = None
  /\ JSON_parse (js "[] x") = None.
Proof. repeat split. Qed.

(** C3.  When the entry of the conversation is absent from the local
    storage, or holds text that [JSON.parse] rejects, the initializer of
    [msgs] returns the empty conversation: the failure is caught. *)
Theorem load_absent_or_malformed (ls : gmap (list N) (list N)) :
  getItem LS_KEY ls = None
  \/ (exists raw, getItem LS_KEY ls = Some raw /\ JSON_parse raw = None) ->
  load ls = Restored [].
Proof.
  intros [H|(raw & H & Hp)]; unfold load; rewrite H; [reflexivity|].
  rewrite Hp. destruct (truthy raw); reflexivity.
Qed.

Lemma load_absent_or_malformed_witness :
  load (<[LS_KEY := js "[{oops"]> ∅) = Restored [].
Proof.
  apply (load_absent_or_malformed (<[LS_KEY := js "[{oops"]> ∅)).
  right. exists (js "[{oops"). split; [apply lookup_insert_eq | reflexivity].
Defined.

Lemma reload_persisted n history ls :
  reload (S n) history ls = Some (history, persist history ls).
Proof.
  revert ls. induction n as [|n IH]; intros ls.
  - simpl. rewrite load_persist. reflexivity.
  - change (reload (S (S n)) history ls)
      with (match load (persist history ls) with
            | Restored h => reload (S n) h (persist history ls)
            | Foreign _ => None
            end).
    rewrite load_persist, IH, persist_persist. reflexivity.
Qed.

(** C5.  Whatever the conversation, writing it to the local storage and
    reading it back gives the same messages in the same order; saving
    and reading back again, any number of times, changes neither the
    conversation nor the storage. *)
Theorem persist_load_roundtrip
  (history : list ChatMsg) (ls : gmap (list N) (list N)) :
  load (persist history ls) = Restored history
  /\ persist history (persist history ls) = persist history ls
  /\ forall n, reload (S n) history ls = Some (history, persist history ls).
Proof.
  split; [apply load_persist|]. split; [apply persist_persist|].
  intros n. apply reload_persisted.
Qed.

(** Every handler that changes the conversation leaves it in the local
    storage: reading the storage back gives [msgs]. *)
Lemma load_rendered a : load (localStorage (rendered a)) = Restored (msgs a).
Proof. apply load_persist. Qed.

Lemma storage_mirrors_msgs (API_BASE uuid : list N) (now : Z) (o : Outcome) (a : App) :
  load (localStorage (settle o uuid now a))
    = Restored (msgs (settle o uuid now a))
  /\ load (localStorage (newChat a)) = Restored []
  /\ (trim (input a) <> [] -> loading a = false ->
      load (localStorage (onSubmit API_BASE uuid now a))
        = Restored (msgs (onSubmit API_BASE uuid now a)))
  /\ (loading a = false -> (exists m, In m (msgs a) /\ role m = user) ->
      load (localStorage (regenerate API_BASE uuid now a))
        = Restored (msgs (regenerate API_BASE uuid now a))).
Proof.
  split; [unfold settle; rewrite msgs_rendered; apply load_rendered|].
  split; [exact (load_rendered _)|]. split.
  - intros Hq Hl. unfold onSubmit. rewrite Hl.
    destruct (trim (input a)) as [|c q] eqn:E; [congruence|].
    cbn [negb truthy orb]. rewrite msgs_rendered. apply load_rendered.
  - intros Hl Hex. destruct (lastUser_exists _ Hex) as [u Hu].
    unfold regenerate. rewrite Hl, Hu, msgs_rendered. apply load_rendered.
Qed.

(* ================================================================== *)
(** * Presentation *)

(** In a bubble without truthy [error] the list of sources is there
    exactly when there are sources, with one item for each in order. *)
Lemma answer_children_sources
  (toLocaleString : Z -> list N) (text : list N) (ts : Z) (l : list Source) :
  l <> [] ->
  exists head foot,
    answer_children toLocaleString text ts (Some l)
    = [head;
       Element "div" [attr "className" (js "bubble-sources")]
         [Element "div" [attr "className" (js "sources-title")]
            [Text (js "Sources")];
          Element "ul" [attr "className" (js "sources-list")]
            (List.map SourceItem l)];
       foot].
Proof.
  intros H. destruct l as [|s l]; [congruence|].
  eexists _, _. reflexivity.
Qed.

(** What [test_http_url] accepts: the strings that begin, up to the case
    of the letters, with [http://] or [https://]. *)
Lemma starts_with_ci_spec p s :
  starts_with_ci p s = true
  <-> exists pre rest, s = pre ++ rest
                       /\ List.map fold_case pre = List.map fold_case p.
Proof.
  revert s. induction p as [|x p IH]; intros s; simpl.
  - split; [|reflexivity]. intros _. exists [], s. split; reflexivity.
  - destruct s as [|y s].
    + split; [discriminate|]. intros (pre & rest & E & Hm).
      destruct pre; [discriminate Hm | discriminate E].
    + rewrite andb_true_iff, N.eqb_eq, IH. split.
      * intros [Hxy (pre & rest & -> & Hm)].
        exists (y :: pre), rest. split; [reflexivity|].
        simpl. rewrite Hm, Hxy. reflexivity.
      * intros (pre & rest & E & Hm). destruct pre as [|z pre]; [discriminate Hm|].
        simpl in E, Hm. injection E as -> ->. injection Hm as Hz Hm.
        split; [symmetry; exact Hz|]. exists pre, rest. split; [reflexivity | exact Hm].
Qed.

Lemma test_http_url_spec s :
  test_http_url s = true
  <-> exists pre rest,
        s = pre ++ rest
        /\ (List.map fold_case pre = js "HTTP://"
            \/ List.map fold_case pre = js "HTTPS://").
Proof.
  unfold test_http_url. rewrite orb_true_iff, !starts_with_ci_spec. split.
  - intros [(pre & rest & E & Hm)|(pre & rest & E & Hm)];
      exists pre, rest; (split; [exact E|]); [right | left]; exact Hm.
  - intros (pre & rest & E & [Hm|Hm]); [right | left];
      exists pre, rest; (split; [exact E | exact Hm]).
Qed.

Example test_http_url_examples :
  test_http_url (js "https://example.com/doc1") = true
  /\ test_http_url (js "HTTP://x") = true
  /\ test_http_url (js "doc1") = false
  /\ test_http_url (js " https://x") = false
  /\ test_http_url (js "ftp://x") = false
  /\ test_http_url [] = false.
Proof. repeat split. Qed.

Example trim_examples :
  trim (js "  What is X? ") = js "What is X?"
  /\ trim [32; 9; 10; 160; 65279] = []
  /\ trim [] = [].
Proof. repeat split. Qed.

(** The exchange of the specification: the question, an answer with one
    source whose [key] is an address, the bubble with the link. *)
Example scenario_answer_with_link :
  let a0 := {| input := js "What is X?"; msgs := []; loading := false;
               localStorage := ∅; requests := [] |} in
  let data := {| answer := Some (js "X is Y.");
                 sources := Some [{| id := js "doc1";
                                     key := js "https://example.com/doc1" |}];
                 error := None |} in
  let a1 := onSubmit (js "https://api") (js "u1") 1000 a0 in
  let a2 := settle (Responded data) (js "u2") 2000 a1 in
  msgs a2
  = [UserMsg (js "u1") (js "What is X?") 1000;
     AssistantMsg (js "u2") (js "X is Y.") 2000
       (Some [{| id := js "doc1"; key := js "https://example.com/doc1" |}])
       None]
  /\ loading a1 = true /\ loading a2 = false
  /\ List.map url (requests a2) = [js "https://api/rag"]
  /\ List.map body (requests a2)
     = [[123; 34] ++ js "question" ++ [34; 58; 34] ++ js "What is X?" ++ [34; 125]]
  /\ SourceItem {| id := js "doc1"; key := js "https://example.com/doc1" |}
     = Element "li" [attr "key" (js "doc1"); attr "className" (js "source-item")]
         [SourceLink (js "https://example.com/doc1") (js "doc1");
          Element "span" [attr "className" (js "source-key")]
            [Text [32; em_dash; 32];
             Element "code" [] [Text (js "https://example.com/doc1")]]].
Proof. repeat split. Qed.



(** C10.  An assistant message whose [error] is the empty string is shown
    as an answer, not as an error: the text, or a dash when the text is
    empty, then the sources if there are any, then the time.  The choice
    follows the truthiness of [error], not its presence. *)
Theorem empty_error_is_shown_as_answer
  (toLocaleString : Z -> list N) (text : list N) (ts : Z)
  (sources : option (list Source)) :
  AssistantBubble toLocaleString text ts sources (Some [])
  = AssistantBubble toLocaleString text ts sources None
  /\ AssistantBubble toLocaleString text ts sources (Some [])
     = Element "div" [attr "className" (js "bubble-row assistant")]
         [Element "div" [attr "className" (js "bubble assistant-bubble")]
            ([Element "div" [attr "className" (js "bubble-text")]
                [Text (match text with [] => [em_dash] | _ :: _ => text end)]]
             ++ match sources with
                | Some (s :: l) =>
                    [Element "div" [attr "className" (js "bubble-sources")]
                       [Element "div" [attr "className" (js "sources-title")]
                          [Text (js "Sources")];
                        Element "ul" [attr "className" (js "sources-list")]
                          (List.map SourceItem (s :: l))]]
                | _ => []
                end
             ++ [Element "div" [attr "className" (js "bubble-meta")]
                   [Text (toLocaleString ts)]])]
  /\ forall c e,
       AssistantBubble toLocaleString text ts sources (Some (c :: e))
       = Element "div" [attr "className" (js "bubble-row assistant")]
           [Element "div" [attr "className" (js "bubble assistant-bubble")]
              [Element "div" [attr "className" (js "bubble-error")]
                 [Text (js "Error: "); Text (c :: e)]]].
Proof.
  split; [reflexivity|]. split; [|reflexivity].
  unfold AssistantBubble, answer_children, formatTs. cbn [truthy].
  destruct text; destruct sources as [[|s l]|]; reflexivity.
Qed.

(* ================================================================== *)
(** * [trim] *)

Lemma trimStart_head s :
  trimStart s = [] \/ exists c r, trimStart s = c :: r /\ is_trim_space c = false.
Proof.
  induction s as [|c r IH]; [left; reflexivity|]. simpl.
  destruct (is_trim_space c) eqn:E; [exact IH | right; eauto].
Qed.

Lemma trimStart_nonspace c r : is_trim_space c = false -> trimStart (c :: r) = c :: r.
Proof. intros H. simpl. rewrite H. reflexivity. Qed.

Lemma trimStart_snoc_nonspace l c :
  is_trim_space c = false -> exists l', trimStart (l ++ [c]) = l' ++ [c].
Proof.
  intros H. induction l as [|x l IH]; simpl.
  - rewrite H. exists []. reflexivity.
  - destruct (is_trim_space x); [exact IH | exists (x :: l); reflexivity].
Qed.

Lemma trimStart_idempotent s : trimStart (trimStart s) = trimStart s.
Proof.
  destruct (trimStart_head s) as [->|(c & r & -> & H)]; [reflexivity|].
  apply trimStart_nonspace, H.
Qed.

Lemma trimEnd_idempotent s : trimEnd (trimEnd s) = trimEnd s.
Proof. unfold trimEnd. rewrite rev_involutive, trimStart_idempotent. reflexivity. Qed.

Lemma trimStart_trimEnd_trimmed c r :
  is_trim_space c = false -> trimStart (trimEnd (c :: r)) = trimEnd (c :: r).
Proof.
  intros H. unfold trimEnd. simpl rev.
  destruct (trimStart_snoc_nonspace (rev r) c H) as [l' ->].
  rewrite rev_app_distr. simpl. rewrite H. reflexivity.
Qed.

(** Trimming twice is trimming once. *)
Lemma trim_idempotent s : trim (trim s) = trim s.
Proof.
  unfold trim.
  destruct (trimStart_head s) as [->|(c & r & -> & H)]; [reflexivity|].
  rewrite trimStart_trimEnd_trimmed by exact H. apply trimEnd_idempotent.
Qed.

Lemma jsstring_eqb_eq a b : jsstring_eqb a b = true <-> a = b.
Proof.
  revert b. induction a as [|x a IH]; intros [|y b]; simpl; try (split; congruence).
  rewrite andb_true_iff, N.eqb_eq, IH. split; [intros [-> ->]; reflexivity|].
  intros [= -> ->]. split; reflexivity.
Qed.

(* ================================================================== *)
(** * The handlers, one event at a time *)

Section Handlers.
Variable API_BASE : list N.

Lemma onSubmit_when_disabled uuid now a :
  sendDisabled a = true -> onSubmit API_BASE uuid now a = a.
Proof.
  unfold sendDisabled, onSubmit. rewrite orb_comm. intros ->. reflexivity.
Qed.

Lemma onSubmit_when_enabled uuid now a :
  sendDisabled a = false ->
  onSubmit API_BASE uuid now a
  = rendered (sendPrompt API_BASE (trim (input a)) uuid now (setInput [] a)).
Proof.
  unfold sendDisabled, onSubmit. rewrite orb_comm. intros ->. reflexivity.
Qed.

Lemma sendPrompt_request prompt uuid now a :
  exists r, requests (sendPrompt API_BASE prompt uuid now a) = requests a ++ [r]
            /\ rag_request API_BASE r
            /\ body r = JSON_stringify (JObject [(js "question", JString (trim prompt))]).
Proof.
  eexists. split; [reflexivity|]. split; [|reflexivity].
  split; [reflexivity|]. split; [reflexivity|]. split; [reflexivity|].
  exists (trim prompt). split; [apply trim_idempotent|].
  cbn [body]. apply JSON_parse_stringify, parses_back_object.
  constructor; [apply parses_back_string | constructor].
Qed.


(** What a handler other than the arrival of a response does to the
    controller: nothing, or it starts the one request. *)
Lemma step_controller e a :
  (forall o uuid now, e <> Settle o uuid now) ->
  (requests (step API_BASE e a) = requests a
   /\ loading (step API_BASE e a) = loading a)
  \/ (loading a = false
      /\ loading (step API_BASE e a) = true
      /\ exists r, requests (step API_BASE e a) = requests a ++ [r]
                   /\ rag_request API_BASE r).
Proof.
  intros Hns.
  assert (Hsub : forall uuid now,
             (requests (onSubmit API_BASE uuid now a) = requests a
              /\ loading (onSubmit API_BASE uuid now a) = loading a)
             \/ (loading a = false
                 /\ loading (onSubmit API_BASE uuid now a) = true
                 /\ exists r, requests (onSubmit API_BASE uuid now a)
                              = requests a ++ [r]
                              /\ rag_request API_BASE r)).
  { intros uuid now. destruct (sendDisabled a) eqn:E.
    - left. rewrite onSubmit_when_disabled by exact E. split; reflexivity.
    - right. rewrite onSubmit_when_enabled by exact E.
      unfold sendDisabled in E. apply orb_false_iff in E as [El _].
      split; [exact El|]. split; [reflexivity|].
      destruct (sendPrompt_request (trim (input a)) uuid now (setInput [] a))
        as (r & Hr & Hrag & _).
      exists r. split; [exact Hr | exact Hrag]. }
  destruct e as [v|uuid now|k sh uuid now|uuid now| |o uuid now]; cbn [step].
  - left. split; reflexivity.
  - apply Hsub.
  - unfold onKeyDown. destruct (jsstring_eqb k (js "Enter") && negb sh);
      [|left; split; reflexivity].
    destruct (truthy (trim (input a)) && negb (loading a));
      [apply Hsub | left; split; reflexivity].
  - unfold regenerate. destruct (loading a) eqn:El;
      [left; split; [reflexivity | exact El]|].
    destruct (lastUser (msgs a)) as [u|]; [|left; split; [reflexivity | exact El]].
    right. split; [reflexivity|]. split; [reflexivity|].
    destruct (sendPrompt_request (text u) uuid now
                (setMsgs popTrailingAssistant (setLoading true a)))
      as (r & Hr & Hrag & _).
    exists r. split; [exact Hr | exact Hrag].
  - left. split; reflexivity.
  - exfalso. eapply Hns. reflexivity.
Qed.

End Handlers.

Lemma popTrailingAssistant_cases m :
  popTrailingAssistant m = m
  \/ exists l, m = popTrailingAssistant m ++ [l] /\ role l = assistant.
Proof.
  destruct m as [|x m'] using rev_ind; [left; reflexivity|].
  destruct (role x) eqn:E.
  - left. apply popTrailingAssistant_snoc_user, E.
  - right. exists x. rewrite popTrailingAssistant_snoc_assistant by exact E.
    split; [reflexivity | exact E].
Qed.

(** The conversation after an event: unchanged, emptied, or one new
    message, carrying the identifier of the event, after the old ones,
    the last of which is dropped in one case: [regenerate] on a trailing
    assistant message. *)
Lemma step_msgs API_BASE e a :
  msgs (step API_BASE e a) = msgs a
  \/ (e = NewChat /\ msgs (step API_BASE e a) = [])
  \/ exists keep m u,
       event_uuid e = Some u /\ ChatMsg_id m = u
       /\ msgs (step API_BASE e a) = keep ++ [m]
       /\ (keep = msgs a
           \/ (role m = user
               /\ (exists now, e = Regenerate u now)
               /\ exists l, msgs a = keep ++ [l] /\ role l = assistant)).
Proof.
  assert (Hsub : forall uuid now,
             msgs (onSubmit API_BASE uuid now a) = msgs a
             \/ exists m, ChatMsg_id m = uuid
                          /\ msgs (onSubmit API_BASE uuid now a) = msgs a ++ [m]).
  { intros uuid now. destruct (sendDisabled a) eqn:E.
    - left. rewrite onSubmit_when_disabled by exact E. reflexivity.
    - right. rewrite onSubmit_when_enabled by exact E.
      eexists. split; [|reflexivity]. reflexivity. }
  destruct e as [v|uuid now|k sh uuid now|uuid now| |o uuid now]; cbn [step].
  - left. reflexivity.
  - destruct (Hsub uuid now) as [H|(m & Hm & H)]; [left; exact H|].
    right. right. exists (msgs a), m, uuid. cbn [event_uuid]. auto.
  - unfold onKeyDown. destruct (jsstring_eqb k (js "Enter") && negb sh);
      [|left; reflexivity].
    destruct (truthy (trim (input a)) && negb (loading a)); [|left; reflexivity].
    destruct (Hsub uuid now) as [H|(m & Hm & H)]; [left; exact H|].
    right. right. exists (msgs a), m, uuid. cbn [event_uuid]. auto.
  - unfold regenerate. destruct (loading a); [left; reflexivity|].
    destruct (lastUser (msgs a)) as [u|]; [|left; reflexivity].
    right. right.
    exists (popTrailingAssistant (msgs a)), (UserMsg uuid (text u) now), uuid.
    split; [reflexivity|]. split; [reflexivity|]. split; [reflexivity|].
    destruct (popTrailingAssistant_cases (msgs a)) as [H|(l & H & Hl)];
      [left; exact H|].
    right. split; [reflexivity|]. split; [eauto|]. exists l. auto.
  - right. left. split; reflexivity.
  - right. right. exists (msgs a), (asstMsg o uuid now), uuid.
    split; [reflexivity|]. split; [destruct o; reflexivity|].
    split; [reflexivity | left; reflexivity].
Qed.

(* ================================================================== *)
(** * Sequences of events *)

Section Runs.
Variable API_BASE : list N.

Lemma dispatch_not_settle e c :
  (forall o uuid now, e <> Settle o uuid now) ->
  dispatch API_BASE e c
  = Some {| component := step API_BASE e (component c);
            awaiting := awaiting c
                        + (length (requests (step API_BASE e (component c)))
                           - length (requests (component c))) |}.
Proof. intros H. destruct e; try reflexivity. exfalso. eapply H. reflexivity. Qed.

Lemma dispatch_in_step e c c' :
  in_step c -> dispatch API_BASE e c = Some c' ->
  in_step c'
  /\ (awaiting c = 1%nat -> (forall o uuid now, e <> Settle o uuid now) ->
      requests (component c') = requests (component c))
  /\ exists new, requests (component c') = requests (component c) ++ new
                 /\ Forall (rag_request API_BASE) new.
Proof.
  intros Hin Hd.
  assert (Hset : (exists o uuid now, e = Settle o uuid now)
                 \/ (forall o uuid now, e <> Settle o uuid now)).
  { destruct e; try (right; intros; discriminate). left. eauto. }
  destruct Hset as [(o & uuid & now & ->)|Hns].
  - cbn [dispatch] in Hd. destruct (awaiting c) as [|k] eqn:Ek; [discriminate|].
    injection Hd as <-. cbn [component awaiting].
    destruct Hin as [[Hl Ha]|[Hl Ha]]; [|lia].
    split; [right; split; [reflexivity | cbn [awaiting]; lia]|].
    split; [intros _ H; exfalso; eapply H; reflexivity|].
    exists []. split; [symmetry; apply List.app_nil_r | constructor].
  - rewrite dispatch_not_settle in Hd by exact Hns. injection Hd as <-.
    cbn [component awaiting].
    destruct (step_controller API_BASE e (component c) Hns)
      as [[Hr Hl]|(Hidle & Hl & r & Hr & Hrag)].
    + rewrite Hr, Nat.sub_diag, Nat.add_0_r.
      split; [unfold in_step in *; cbn [component awaiting]; rewrite Hl; exact Hin|].
      split; [reflexivity|].
      exists []. split; [symmetry; apply List.app_nil_r | constructor].
    + rewrite Hr, length_app. cbn [length].
      destruct Hin as [[Hl' Ha]|[Hl' Ha]]; [congruence|].
      split; [left; split; [cbn [component]; exact Hl | cbn [awaiting]; lia]|].
      split; [intros H1; lia|].
      exists [r]. split; [reflexivity | constructor; [exact Hrag | constructor]].
Qed.

Lemma run_in_step es : forall c c',
  in_step c -> run API_BASE es c = Some c' ->
  in_step c'
  /\ exists new, requests (component c') = requests (component c) ++ new
                 /\ Forall (rag_request API_BASE) new.
Proof.
  induction es as [|e es IH]; intros c c' Hin Hr.
  - injection Hr as <-. split; [exact Hin|].
    exists []. split; [symmetry; apply List.app_nil_r | constructor].
  - cbn [run] in Hr. destruct (dispatch API_BASE e c) as [c1|] eqn:Hd; [|discriminate].
    cbn [mbind option_bind] in Hr.
    destruct (dispatch_in_step e c c1 Hin Hd) as (Hin1 & _ & new1 & E1 & F1).
    destruct (IH c1 c' Hin1 Hr) as (Hin' & new2 & E2 & F2).
    split; [exact Hin'|]. exists (new1 ++ new2).
    split; [rewrite E2, E1, <- List.app_assoc; reflexivity|].
    apply List.Forall_app. split; assumption.
Qed.

Lemma step_mirrored e a : mirrored a -> mirrored (step API_BASE e a).
Proof.
  unfold mirrored. intros H.
  assert (Hsub : forall uuid now,
             load (localStorage (onSubmit API_BASE uuid now a))
             = Restored (msgs (onSubmit API_BASE uuid now a))).
  { intros uuid now. destruct (sendDisabled a) eqn:E.
    - rewrite onSubmit_when_disabled by exact E. exact H.
    - rewrite onSubmit_when_enabled by exact E. exact (load_rendered _). }
  destruct e as [v|uuid now|k sh uuid now|uuid now| |o uuid now]; cbn [step].
  - exact H.
  - apply Hsub.
  - unfold onKeyDown. destruct (jsstring_eqb k (js "Enter") && negb sh); [|exact H].
    destruct (truthy (trim (input a)) && negb (loading a)); [apply Hsub | exact H].
  - unfold regenerate. destruct (loading a); [exact H|].
    destruct (lastUser (msgs a)); [exact (load_rendered _) | exact H].
  - exact (load_rendered _).
  - exact (load_rendered _).
Qed.

Lemma dispatch_component e c c' :
  dispatch API_BASE e c = Some c' -> component c' = step API_BASE e (component c).
Proof.
  destruct e; cbn [dispatch]; try (intros [= <-]; reflexivity).
  destruct (awaiting c); [discriminate|]. intros [= <-]. reflexivity.
Qed.

Lemma run_mirrored es : forall c c',
  mirrored (component c) -> run API_BASE es c = Some c' -> mirrored (component c').
Proof.
  induction es as [|e es IH]; intros c c' H Hr.
  - injection Hr as <-. exact H.
  - cbn [run] in Hr. destruct (dispatch API_BASE e c) as [c1|] eqn:Hd; [|discriminate].
    apply (IH c1 c'); [|exact Hr].
    rewrite (dispatch_component _ _ _ Hd). apply step_mirrored, H.
Qed.

Lemma mount_spec ls a :
  mount ls = Some a ->
  load ls = Restored (msgs a) /\ input a = [] /\ loading a = false
  /\ requests a = [] /\ localStorage a = persist (msgs a) ls /\ mirrored a.
Proof.
  unfold mount. destruct (load ls) as [h|] eqn:E; [|discriminate].
  intros [= <-]. repeat split; exact (load_rendered _).
Qed.

End Runs.

(** While a request is in flight the conversation is empty or ends with a
    user message: one handler to the next. *)
Lemma step_sending_tail (API_BASE : list N) (e : Event) (a : App) :
  (loading a = true ->
   msgs a = [] \/ exists init u, msgs a = init ++ [u] /\ role u = user) ->
  loading (step API_BASE e a) = true ->
  msgs (step API_BASE e a) = []
  \/ exists init u, msgs (step API_BASE e a) = init ++ [u] /\ role u = user.
Proof.
  intros H.
  assert (Hsub : forall uuid now,
             loading (onSubmit API_BASE uuid now a) = true ->
             msgs (onSubmit API_BASE uuid now a) = []
             \/ exists init u, msgs (onSubmit API_BASE uuid now a) = init ++ [u]
                               /\ role u = user).
  { intros uuid now. destruct (sendDisabled a) eqn:E.
    - rewrite onSubmit_when_disabled by exact E. exact H.
    - rewrite onSubmit_when_enabled by exact E. intros _. right.
      eexists _, _. split; reflexivity. }
  destruct e as [v|uuid now|k sh uuid now|uuid now| |o uuid now]; cbn [step].
  - exact H.
  - apply Hsub.
  - unfold onKeyDown. destruct (jsstring_eqb k (js "Enter") && negb sh); [|exact H].
    destruct (truthy (trim (input a)) && negb (loading a)); [apply Hsub | exact H].
  - unfold regenerate. destruct (loading a) eqn:El; [intros _; apply H; reflexivity|].
    destruct (lastUser (msgs a)) as [u|]; [|rewrite El; discriminate].
    intros _. right. eexists _, _. split; reflexivity.
  - intros _. left. reflexivity.
  - discriminate.
Qed.

(** From the opening of the page on, [loading] is never true on a
    conversation that ends with an assistant message: when [regenerate]
    meets a trailing assistant message, no request is in flight. *)
Lemma run_sending_tail (API_BASE : list N) (es : list Event) : forall c c',
  (loading (component c) = true ->
   msgs (component c) = []
   \/ exists init u, msgs (component c) = init ++ [u] /\ role u = user) ->
  run API_BASE es c = Some c' ->
  loading (component c') = true ->
  msgs (component c') = []
  \/ exists init u, msgs (component c') = init ++ [u] /\ role u = user.
Proof.
  induction es as [|e es IH]; intros c c' H Hr.
  - injection Hr as <-. exact H.
  - cbn [run] in Hr.
    destruct (dispatch API_BASE e c) as [c1|] eqn:Hd; [|discriminate].
    apply (IH c1 c'); [|exact Hr].
    rewrite (dispatch_component _ _ _ _ Hd). apply step_sending_tail, H.
Qed.

(* ================================================================== *)
(** * Further properties of the component *)

(** X1.  [newChat] empties the conversation and the input and leaves
    [loading] and the requests as they are, so a pending request is not
    cancelled.  The entry of the conversation is removed and then written
    again by the effect of lines 42-44: afterwards it holds the text
    of the empty array; the other entries of the storage are untouched. *)
Theorem newChat_resets (a : App) :
  input (newChat a) = []
  /\ msgs (newChat a) = []
  /\ loading (newChat a) = loading a
  /\ requests (newChat a) = requests a
  /\ getItem LS_KEY (localStorage (newChat a)) = Some (js "[]")
  /\ forall k, k <> LS_KEY ->
       getItem k (localStorage (newChat a)) = getItem k (localStorage a).
Proof.
  repeat split.
  - unfold newChat, rendered, withStorage, persist, getItem, setItem.
    cbn [localStorage msgs setMsgs setInput]. rewrite lookup_insert_eq. reflexivity.
  - intros k Hk.
    unfold newChat, rendered, withStorage, persist, getItem, setItem, removeItem.
    cbn [localStorage msgs setMsgs setInput].
    rewrite lookup_insert_ne by congruence.
    rewrite lookup_delete_ne by congruence. reflexivity.
Qed.

(** X2.  The Send button is disabled exactly when [onSubmit] would do
    nothing: the [disabled] property of line 198 and the guard of line 95
    agree. *)
Theorem send_button_gate (API_BASE uuid : list N) (now : Z) (a : App) :
  sendDisabled a = true <-> onSubmit API_BASE uuid now a = a.
Proof.
  split; [apply onSubmit_when_disabled|].
  intros H. destruct (sendDisabled a) eqn:E; [reflexivity|].
  rewrite onSubmit_when_enabled in H by exact E.
  apply (f_equal (fun x => length (msgs x))) in H.
  cbn in H. rewrite length_app in H. simpl in H. lia.
Qed.

(** X3.  [regenerate] changes nothing exactly when a request is in
    flight or the conversation has no user message.  The Regenerate
    button being disabled (line 190) is enough for that, not necessary:
    on every idle, non-empty conversation of assistant messages only the
    button is enabled and [regenerate] does nothing, and such a
    conversation arises when a response arrives after New chat. *)
Theorem regenerate_changes_iff (API_BASE uuid : list N) (now : Z) (a : App) :
  (regenerate API_BASE uuid now a = a
   <-> loading a = true \/ Forall (fun m => role m = assistant) (msgs a))
  /\ (regenerateDisabled a = true -> regenerate API_BASE uuid now a = a)
  /\ (loading a = false -> msgs a <> [] ->
      Forall (fun m => role m = assistant) (msgs a) ->
      regenerateDisabled a = false /\ regenerate API_BASE uuid now a = a)
  /\ exists c,
       run API_BASE
         [Change (js "q"); Submit (js "u1") 1; NewChat;
          Settle (Threw {| message := None |}) (js "u2") 2]
         {| component := rendered {| input := []; msgs := []; loading := false;
                                     localStorage := ∅; requests := [] |};
            awaiting := 0 |} = Some c
       /\ regenerateDisabled (component c) = false
       /\ regenerate API_BASE uuid now (component c) = component c.
Proof.
  assert (Hback : loading a = true \/ Forall (fun m => role m = assistant) (msgs a)
                  -> regenerate API_BASE uuid now a = a).
  { intros [H|H]; unfold regenerate.
    - rewrite H. reflexivity.
    - apply lastUser_None in H. rewrite H. destruct (loading a); reflexivity. }
  split; [split; [|exact Hback]|split; [|split]].
  - intros H. destruct (loading a) eqn:El; [left; reflexivity|]. right.
    apply lastUser_None. destruct (lastUser (msgs a)) as [u|] eqn:Eu; [|reflexivity].
    unfold regenerate in H. rewrite El, Eu in H.
    apply (f_equal loading) in H. cbn in H. congruence.
  - intros H. apply Hback. unfold regenerateDisabled in H.
    apply orb_true_iff in H as [H|H]; [left; exact H|]. right.
    apply Nat.eqb_eq in H. destruct (msgs a); [constructor | discriminate H].
  - intros Hl Hne Hall. split; [|apply Hback; right; exact Hall].
    unfold regenerateDisabled. rewrite Hl. destruct (msgs a); [congruence | reflexivity].
  - eexists. split; [reflexivity|]. split; reflexivity.
Qed.

(** X4.  Enter without Shift does what the Send button does; any other
    key, and Enter with Shift, leave the component as it is. *)
Theorem enter_key_submits (API_BASE uuid : list N) (now : Z) (a : App) :
  onKeyDown API_BASE (js "Enter") false uuid now a = onSubmit API_BASE uuid now a
  /\ forall key shiftKey,
       key <> js "Enter" \/ shiftKey = true ->
       onKeyDown API_BASE key shiftKey uuid now a = a.
Proof.
  split.
  - unfold onKeyDown.
    change (jsstring_eqb (js "Enter") (js "Enter") && negb false) with true.
    cbv iota.
    destruct (truthy (trim (input a)) && negb (loading a)) eqn:E; [reflexivity|].
    symmetry. apply onSubmit_when_disabled. unfold sendDisabled.
    apply andb_false_iff in E as [E|E].
    + rewrite E. apply orb_true_r.
    + apply negb_false_iff in E. rewrite E. reflexivity.
  - intros key sh H. unfold onKeyDown.
    destruct (jsstring_eqb key (js "Enter")) eqn:E; [|reflexivity].
    apply jsstring_eqb_eq in E. destruct H as [H| ->]; [contradiction | reflexivity].
Qed.

(** X5.  At most one request is awaited at any time.  From a client
    whose [loading] agrees with the count of awaited responses, every
    sequence of events leads to such a client, with at most one response
    awaited; and while one is awaited, no event issues a request. *)
Theorem one_request_at_a_time
  (API_BASE : list N) (es : list Event) (c c' : Client) :
  in_step c ->
  run API_BASE es c = Some c' ->
  in_step c'
  /\ (awaiting c' <= 1)%nat
  /\ forall e c'',
       awaiting c' = 1%nat ->
       (forall o uuid now, e <> Settle o uuid now) ->
       dispatch API_BASE e c' = Some c'' ->
       requests (component c'') = requests (component c').
Proof.
  intros Hin Hr. destruct (run_in_step API_BASE es c c' Hin Hr) as [Hin' _].
  split; [exact Hin'|]. split.
  - destruct Hin' as [[_ H]|[_ H]]; lia.
  - intros e c'' Ha Hns Hd.
    destruct (dispatch_in_step API_BASE e c' c'' Hin' Hd) as (_ & H & _). auto.
Qed.

Lemma one_request_at_a_time_witness :
  exists c',
    run (js "https://api")
      [Change (js "hi"); Submit (js "u1") 1; Regenerate (js "u2") 2;
       Change (js "more"); Submit (js "u3") 3]
      {| component := {| input := []; msgs := []; loading := false;
                         localStorage := ∅; requests := [] |};
         awaiting := 0 |} = Some c'
    /\ awaiting c' = 1%nat
    /\ length (requests (component c')) = 1%nat.
Proof.
  eexists. split; [reflexivity|].
  destruct (one_request_at_a_time (js "https://api")
              [Change (js "hi"); Submit (js "u1") 1; Regenerate (js "u2") 2;
               Change (js "more"); Submit (js "u3") 3]
              {| component := {| input := []; msgs := []; loading := false;
                                 localStorage := ∅; requests := [] |};
                 awaiting := 0 |} _
              ltac:(right; split; reflexivity) eq_refl) as (_ & _ & _).
  split; reflexivity.
Defined.

(** X6.  Every request the component issues, from the opening of the
    page on, is a POST to [API_BASE/rag] with a JSON content type and a
    body that reads as an object with the one member [question], a
    trimmed string. *)
Theorem requests_go_to_rag
  (API_BASE : list N) (ls : gmap (list N) (list N)) (a0 : App)
  (es : list Event) (c : Client) :
  mount ls = Some a0 ->
  run API_BASE es {| component := a0; awaiting := 0 |} = Some c ->
  Forall (rag_request API_BASE) (requests (component c)).
Proof.
  intros Hm Hr. apply mount_spec in Hm as (_ & _ & Hl & Hq & _).
  assert (Hin : in_step {| component := a0; awaiting := 0 |})
    by (right; split; [exact Hl | reflexivity]).
  destruct (run_in_step API_BASE es _ c Hin Hr) as (_ & new & E & F).
  cbn [component] in E. rewrite E, Hq. exact F.
Qed.

(** X7.  Whatever happened since the page was opened, opening it again
    on the storage as it is then shows the same conversation, with an
    empty input, not loading, and nothing requested. *)
Theorem reopening_restores_conversation
  (API_BASE : list N) (ls : gmap (list N) (list N)) (a0 : App)
  (es : list Event) (c : Client) :
  mount ls = Some a0 ->
  run API_BASE es {| component := a0; awaiting := 0 |} = Some c ->
  exists a',
    mount (localStorage (component c)) = Some a'
    /\ msgs a' = msgs (component c)
    /\ input a' = [] /\ loading a' = false /\ requests a' = [].
Proof.
  intros Hm Hr. apply mount_spec in Hm as (_ & _ & _ & _ & _ & Hmir).
  pose proof (run_mirrored API_BASE es {| component := a0; awaiting := 0 |} c
                Hmir Hr) as H.
  unfold mirrored in H. unfold mount. rewrite H.
  eexists. split; [reflexivity|]. repeat split.
Qed.

(** X8.  Opened on a storage without the entry, or with an entry that
    [JSON.parse] rejects, the page starts with the empty conversation and
    its first render writes the text of the empty array over the entry. *)
Theorem mount_without_history (ls : gmap (list N) (list N)) :
  getItem LS_KEY ls = None
  \/ (exists raw, getItem LS_KEY ls = Some raw /\ JSON_parse raw = None) ->
  exists a,
    mount ls = Some a
    /\ msgs a = [] /\ input a = [] /\ loading a = false
    /\ getItem LS_KEY (localStorage a) = Some (js "[]").
Proof.
  intros H.
  assert (E : load ls = Restored []).
  { unfold load. destruct H as [->|(raw & -> & ->)]; [reflexivity|].
    destruct (truthy raw); reflexivity. }
  unfold mount. rewrite E. eexists. split; [reflexivity|].
  repeat split. unfold rendered, withStorage, persist, getItem, setItem.
  cbn [localStorage msgs]. rewrite lookup_insert_eq. reflexivity.
Qed.

Lemma lastUser_snoc_user_assistant l u r :
  role u = user -> role r = assistant -> lastUser (l ++ [u; r]) = Some u.
Proof.
  intros Hu Hr. unfold lastUser. rewrite rev_app_distr. simpl.
  unfold is_user. rewrite Hr, Hu. reflexivity.
Qed.

(** X9.  Submit, response, Regenerate: the answer is dropped, the
    question appears a second time as a new user message with the same
    trimmed text, and the second request equals the first. *)
Theorem regenerate_resends_question
  (API_BASE u1 u2 u3 : list N) (n1 n2 n3 : Z) (o : Outcome) (a : App) :
  trim (input a) <> [] ->
  loading a = false ->
  let a3 := regenerate API_BASE u3 n3
              (settle o u2 n2 (onSubmit API_BASE u1 n1 a)) in
  msgs a3 = msgs a ++ [UserMsg u1 (trim (input a)) n1;
                       UserMsg u3 (trim (input a)) n3]
  /\ loading a3 = true
  /\ exists r, requests a3 = requests a ++ [r; r].
Proof.
  intros Hq Hl.
  assert (E : sendDisabled a = false).
  { unfold sendDisabled. rewrite Hl. destruct (trim (input a)); [congruence | reflexivity]. }
  rewrite (onSubmit_when_enabled API_BASE u1 n1 a E).
  set (q := trim (input a)).
  set (a2 := settle o u2 n2 (rendered (sendPrompt API_BASE q u1 n1 (setInput [] a)))).
  assert (Hm : msgs a2 = msgs a ++ [UserMsg u1 q n1; asstMsg o u2 n2]).
  { cbn. rewrite <- List.app_assoc. reflexivity. }
  assert (Hu : lastUser (msgs a2) = Some (UserMsg u1 q n1)).
  { rewrite Hm. apply lastUser_snoc_user_assistant; [reflexivity | destruct o; reflexivity]. }
  assert (Hp : popTrailingAssistant (msgs a2) = msgs a ++ [UserMsg u1 q n1]).
  { rewrite Hm.
    change (msgs a ++ [UserMsg u1 q n1; asstMsg o u2 n2])
      with (msgs a ++ [UserMsg u1 q n1] ++ [asstMsg o u2 n2]).
    rewrite List.app_assoc. apply popTrailingAssistant_snoc_assistant.
    destruct o; reflexivity. }
  cbv zeta. unfold regenerate.
  change (loading a2) with false. cbv iota. rewrite Hu.
  split; [|split; [reflexivity|]].
  - cbn [msgs rendered withStorage sendPrompt setMsgs setLoading fetch text].
    rewrite Hp, <- List.app_assoc. reflexivity.
  - eexists.
    cbn [requests rendered withStorage sendPrompt setMsgs setLoading fetch text
           a2 settle sendPrompt_resume setInput].
    unfold q. rewrite trim_idempotent, <- List.app_assoc. reflexivity.
Qed.

Lemma regenerate_resends_question_witness :
  msgs (regenerate [] (js "u3") 3
          (settle (Threw {| message := None |}) (js "u2") 2
             (onSubmit [] (js "u1") 1
                {| input := js " hi "; msgs := []; loading := false;
                   localStorage := ∅; requests := [] |})))
  = [UserMsg (js "u1") (js "hi") 1; UserMsg (js "u3") (js "hi") 3].
Proof.
  apply (regenerate_resends_question [] (js "u1") (js "u2") (js "u3") 1 2 3
           (Threw {| message := None |})
           {| input := js " hi "; msgs := []; loading := false;
              localStorage := ∅; requests := [] |});
    [discriminate | reflexivity].
Defined.

Lemma requests_go_to_rag_witness :
  exists c,
    run (js "https://api")
      [Change (js "hi"); Submit (js "u1") 1;
       Settle (Threw {| message := None |}) (js "u2") 2; Regenerate (js "u3") 3]
      {| component := rendered {| input := []; msgs := []; loading := false;
                                  localStorage := ∅; requests := [] |};
         awaiting := 0 |} = Some c
    /\ Forall (rag_request (js "https://api")) (requests (component c)).
Proof.
  eexists. split; [reflexivity|].
  apply (requests_go_to_rag (js "https://api") ∅
           (rendered {| input := []; msgs := []; loading := false;
                        localStorage := ∅; requests := [] |})
           [Change (js "hi"); Submit (js "u1") 1;
            Settle (Threw {| message := None |}) (js "u2") 2;
            Regenerate (js "u3") 3]);
    reflexivity.
Defined.

Lemma reopening_restores_conversation_witness :
  exists c a',
    run (js "https://api")
      [Change (js "hi"); Submit (js "u1") 1;
       Settle (Threw {| message := None |}) (js "u2") 2]
      {| component := rendered {| input := []; msgs := []; loading := false;
                                  localStorage := ∅; requests := [] |};
         awaiting := 0 |} = Some c
    /\ mount (localStorage (component c)) = Some a'
    /\ msgs a' = [UserMsg (js "u1") (js "hi") 1;
                  AssistantMsg (js "u2") [] 2 None (Some (js "Network error"))].
Proof.
  edestruct (reopening_restores_conversation (js "https://api") ∅
              (rendered {| input := []; msgs := []; loading := false;
                        localStorage := ∅; requests := [] |})
              [Change (js "hi"); Submit (js "u1") 1;
               Settle (Threw {| message := None |}) (js "u2") 2])
    as (a' & Hm & Hmsgs & _); [reflexivity | reflexivity |].
  eexists _, a'. split; [reflexivity|]. split; [exact Hm | exact Hmsgs].
Defined.

Lemma mount_without_history_witness :
  exists a,
    mount (<[LS_KEY := js "{oops"]> ∅) = Some a
    /\ msgs a = []
    /\ getItem LS_KEY (localStorage a) = Some (js "[]").
Proof.
  destruct (mount_without_history (<[LS_KEY := js "{oops"]> ∅))
    as (a & Hm & Hmsgs & _ & _ & Hs).
  - right. exists (js "{oops"). split; [apply lookup_insert_eq | reflexivity].
  - exists a. auto.
Defined.

(** X10.  The body of the request [sendPrompt] issues is well-formed
    JSON for every prompt, whatever characters it holds, and reads back
    as the object whose [question] is the trimmed prompt. *)
Theorem request_carries_trimmed_prompt
  (API_BASE prompt uuid : list N) (now : Z) (a : App) :
  exists r,
    requests (sendPrompt API_BASE prompt uuid now a) = requests a ++ [r]
    /\ url r = API_BASE ++ js "/rag"
    /\ method r = js "POST"
    /\ JSON_parse (body r)
       = Some (JObject [(js "question", JString (trim prompt))]).
Proof.
  eexists. split; [reflexivity|]. split; [reflexivity|]. split; [reflexivity|].
  cbn [body]. apply JSON_parse_stringify, parses_back_object.
  constructor; [apply parses_back_string | constructor].
Qed.

(** X11.  An error reported by the backend and a failure with the same
    message give the same bubble: the line [Error: ...] alone, the answer
    and the sources of the response not shown. *)
Theorem backend_error_looks_like_failure
  (toLocaleString : Z -> list N) (data : BackendOut) (e uuid : list N) (now : Z) :
  error data = Some e ->
  e <> [] ->
  MessageBubble toLocaleString (asstMsg (Responded data) uuid now)
  = MessageBubble toLocaleString (asstMsg (Threw {| message := Some e |}) uuid now)
  /\ MessageBubble toLocaleString (asstMsg (Responded data) uuid now)
     = Element "div" [attr "className" (js "bubble-row assistant")]
         [Element "div" [attr "className" (js "bubble assistant-bubble")]
            [Element "div" [attr "className" (js "bubble-error")]
               [Text (js "Error: "); Text e]]].
Proof.
  intros He Hne. destruct e as [|c e]; [congruence|].
  cbn [asstMsg MessageBubble message or_default or_else truthy].
  rewrite He. split; reflexivity.
Qed.

Lemma backend_error_looks_like_failure_witness :
  MessageBubble (fun _ => js "now")
    (asstMsg (Responded {| answer := Some (js "X is Y.");
                           sources := Some [{| id := js "d"; key := js "k" |}];
                           error := Some (js "quota") |}) (js "u") 1)
  = MessageBubble (fun _ => js "now")
      (asstMsg (Threw {| message := Some (js "quota") |}) (js "u") 1).
Proof.
  apply (backend_error_looks_like_failure (fun _ => js "now")
           {| answer := Some (js "X is Y.");
              sources := Some [{| id := js "d"; key := js "k" |}];
              error := Some (js "quota") |} (js "quota") (js "u") 1);
    [reflexivity | discriminate].
Defined.

(** X12.  The identifiers of the messages stay distinct through every
    event, provided the identifier generated during the event is not
    that of a message of the conversation. *)
Theorem ids_stay_distinct (API_BASE : list N) (e : Event) (a : App) :
  List.NoDup (List.map ChatMsg_id (msgs a)) ->
  (forall u, event_uuid e = Some u -> ~ In u (List.map ChatMsg_id (msgs a))) ->
  List.NoDup (List.map ChatMsg_id (msgs (step API_BASE e a))).
Proof.
  intros Hnd Hfresh.
  destruct (step_msgs API_BASE e a)
    as [->|[[_ ->]|(keep & m & u & Hu & Hm & -> & Hk)]];
    [exact Hnd | constructor |].
  specialize (Hfresh u Hu).
  rewrite List.map_app. cbn [List.map]. rewrite Hm.
  assert (Hkeep : List.NoDup (List.map ChatMsg_id keep)
                  /\ ~ In u (List.map ChatMsg_id keep)).
  { destruct Hk as [->|(_ & _ & l & El & _)]; [auto|].
    rewrite El, List.map_app in Hnd, Hfresh.
    split; [eapply List.NoDup_app_remove_r; exact Hnd|].
    intros H. apply Hfresh. apply List.in_or_app. left. exact H. }
  destruct Hkeep as [Hk1 Hk2].
  apply List.NoDup_app; [exact Hk1 | repeat constructor; intros [] |].
  intros x Hx [<-|[]]. contradiction.
Qed.

Lemma ids_stay_distinct_witness :
  List.NoDup
    (List.map ChatMsg_id
       (msgs (step [] (Regenerate (js "u3") 3)
                {| input := [];
                   msgs := [UserMsg (js "u1") (js "q") 1;
                            AssistantMsg (js "u2") (js "r") 2 None None];
                   loading := false; localStorage := ∅; requests := [] |}))).
Proof.
  apply (ids_stay_distinct [] (Regenerate (js "u3") 3)
           {| input := [];
              msgs := [UserMsg (js "u1") (js "q") 1;
                       AssistantMsg (js "u2") (js "r") 2 None None];
              loading := false; localStorage := ∅; requests := [] |}).
  - repeat constructor; cbn; intuition discriminate.
  - intros u [= <-]. cbn. intuition discriminate.
Defined.

(** X13.  No event but New chat removes or alters a user message: the
    user messages before the event are the first user messages after it,
    followed by at most one more.  Apart from New chat and Regenerate, an
    event only appends, at most one message. *)
Theorem user_messages_are_kept (API_BASE : list N) (e : Event) (a : App) :
  e <> NewChat ->
  (exists new, List.filter is_user (msgs (step API_BASE e a))
               = List.filter is_user (msgs a) ++ new
               /\ (length new <= 1)%nat)
  /\ ((forall uuid now, e <> Regenerate uuid now) ->
      exists new, msgs (step API_BASE e a) = msgs a ++ new
                  /\ (length new <= 1)%nat).
Proof.
  intros Hne.
  destruct (step_msgs API_BASE e a)
    as [->|[[-> _]|(keep & m & u & Hu & Hm & -> & Hk)]]; [|congruence|].
  - split; [|intros _]; exists []; rewrite List.app_nil_r; split; (reflexivity || (simpl; lia)).
  - split.
    + rewrite List.filter_app.
      exists (List.filter is_user [m]). split.
      * f_equal. destruct Hk as [->|(_ & _ & l & -> & Hl)]; [reflexivity|].
        rewrite List.filter_app. cbn [List.filter]. unfold is_user. rewrite Hl.
        rewrite List.app_nil_r. reflexivity.
      * cbn [List.filter]. destruct (is_user m); simpl; lia.
    + intros Hnr. destruct Hk as [->|(_ & (now & ->) & _)].
      * exists [m]. split; [reflexivity | simpl; lia].
      * exfalso. eapply Hnr. reflexivity.
Qed.

Lemma user_messages_are_kept_witness :
  exists new,
    List.filter is_user
      (msgs (step [] (Regenerate (js "u3") 3)
               {| input := [];
                  msgs := [UserMsg (js "u1") (js "q") 1;
                           AssistantMsg (js "u2") (js "r") 2 None None];
                  loading := false; localStorage := ∅; requests := [] |}))
    = [UserMsg (js "u1") (js "q") 1] ++ new.
Proof.
  destruct (user_messages_are_kept [] (Regenerate (js "u3") 3)
              {| input := [];
                 msgs := [UserMsg (js "u1") (js "q") 1;
                          AssistantMsg (js "u2") (js "r") 2 None None];
                 loading := false; localStorage := ∅; requests := [] |})
    as [(new & H & _) _]; [discriminate|].
  exists new. exact H.
Defined.

(** X14.  A response that arrives after New chat is not discarded: it
    becomes the only message of the new conversation, and Regenerate
    then finds nothing to send again. *)
Theorem late_response_lands_in_new_chat
  (API_BASE : list N) (c : Client) (o : Outcome) (uuid : list N) (now : Z) :
  awaiting c = 1%nat ->
  exists c',
    run API_BASE [NewChat; Settle o uuid now] c = Some c'
    /\ msgs (component c') = [asstMsg o uuid now]
    /\ loading (component c') = false
    /\ awaiting c' = 0%nat
    /\ forall uuid' now',
         regenerate API_BASE uuid' now' (component c') = component c'.
Proof.
  intros Ha. cbn [run dispatch step]. rewrite Ha.
  cbn [mbind option_bind awaiting component requests newChat rendered withStorage
         setInput setMsgs].
  rewrite Nat.sub_diag. cbn [Nat.add].
  eexists. split; [reflexivity|]. repeat split.
  intros uuid' now'. unfold regenerate. cbn. destruct o; reflexivity.
Qed.

Lemma late_response_lands_in_new_chat_witness :
  exists c',
    run [] [NewChat; Settle (Threw {| message := None |}) (js "u2") 2]
      {| component := {| input := []; msgs := [UserMsg (js "u1") (js "q") 1];
                         loading := true; localStorage := ∅; requests := [] |};
         awaiting := 1 |} = Some c'
    /\ msgs (component c')
       = [AssistantMsg (js "u2") [] 2 None (Some (js "Network error"))].
Proof.
  destruct (late_response_lands_in_new_chat []
              {| component := {| input := [];
                                 msgs := [UserMsg (js "u1") (js "q") 1];
                                 loading := true; localStorage := ∅;
                                 requests := [] |};
                 awaiting := 1 |}
              (Threw {| message := None |}) (js "u2") 2)
    as (c' & Hr & Hm & _); [reflexivity|].
  exists c'. split; [exact Hr | exact Hm].
Defined.

Section Typing.
Variable toLocaleString : Z -> list N.

Lemma MessageBubble_not_typing m : MessageBubble toLocaleString m <> TypingBubble.
Proof.
  destruct m as [i t ts|i t ts srcs err]; intros H.
  - discriminate H.
  - unfold MessageBubble, AssistantBubble, TypingBubble in H.
    injection H as H. discriminate H.
Qed.

(** X15.  The chat area shows the typing bubble exactly while a
    response is awaited.  Its children are, in this order: the bubble of
    each message in the order of the conversation (the text and the time
    of a user message, [AssistantBubble] of an assistant message), the
    typing bubble if a response is awaited, and the empty anchor. *)
Theorem typing_bubble_iff_awaiting (c : Client) :
  in_step c ->
  exists children,
    ChatArea toLocaleString (component c)
    = Element "main" [("className"%string, js "chat")] children
    /\ (In TypingBubble children <-> awaiting c = 1%nat)
    /\ length children = (length (msgs (component c)) + awaiting c + 1)%nat
    /\ children
       = List.map
           (fun m =>
              match m with
              | UserMsg _ text ts =>
                  Element "div" [("className"%string, js "bubble-row user")]
                    [Element "div" [("className"%string, js "bubble user-bubble")]
                       [Element "div" [("className"%string, js "bubble-text")]
                          [Text text];
                        Element "div" [("className"%string, js "bubble-meta")]
                          [Text (toLocaleString ts)]]]
              | AssistantMsg _ text ts sources error =>
                  AssistantBubble toLocaleString text ts sources error
              end)
           (msgs (component c))
         ++ match awaiting c with
            | O => []
            | S _ =>
                [Element "div" [("className"%string, js "bubble-row assistant")]
                   [Element "div"
                      [("className"%string, js "bubble assistant-bubble typing")]
                      [Element "span" [("className"%string, js "dot")] [];
                       Element "span" [("className"%string, js "dot")] [];
                       Element "span" [("className"%string, js "dot")] []]]]
            end
         ++ [Element "div" [] []].
Proof.
  intros Hin. unfold ChatArea.
  exists (List.map (MessageBubble toLocaleString) (msgs (component c))
          ++ (if loading (component c) then [TypingBubble] else [])
          ++ [Element "div" [] []]).
  split; [reflexivity|].
  assert (Hno : ~ In TypingBubble
                    (List.map (MessageBubble toLocaleString) (msgs (component c)))).
  { intros H. apply List.in_map_iff in H as (m & Hm & _).
    exact (MessageBubble_not_typing m Hm). }
  rewrite !length_app, List.length_map.
  destruct Hin as [[-> ->]|[-> ->]]; (split; [split|split]).
  - reflexivity.
  - intros _. apply List.in_or_app. right. left. reflexivity.
  - simpl. lia.
  - reflexivity.
  - intros H. apply List.in_app_or in H as [H|[H|[]]]; [contradiction|].
    discriminate H.
  - discriminate.
  - simpl. lia.
  - reflexivity.
Qed.

End Typing.

Lemma typing_bubble_iff_awaiting_witness :
  exists children,
    ChatArea (fun _ => js "now")
      {| input := []; msgs := [UserMsg (js "u1") (js "q") 1];
         loading := true; localStorage := ∅; requests := [] |}
    = Element "main" [attr "className" (js "chat")] children
    /\ length children = 3%nat.
Proof.
  destruct (typing_bubble_iff_awaiting (fun _ => js "now")
              {| component := {| input := [];
                                 msgs := [UserMsg (js "u1") (js "q") 1];
                                 loading := true; localStorage := ∅;
                                 requests := [] |};
                 awaiting := 1 |})
    as (children & H & _ & Hl & _); [left; split; reflexivity|].
  exists children. split; [exact H | exact Hl].
Defined.
